(** * fntags: state binding, rendering and routing

    A shallow embedding of [docs/fntags.js] and the properties of its
    state-observation engine, element renderer and router. *)

From Stdlib Require Import ZArith Lia Bool Ascii String List.
From stdpp Require Import base option list strings gmap.

Local Open Scope string_scope.

(** ** JavaScript string primitives used by the router

    Strings are sequences of one-byte characters; the paths and patterns of
    the router are compared and cut character by character. *)

Module JsString.

(** [s.startsWith(p)] *)
Definition startsWith (p s : string) : bool := String.prefix p s.

(** [s.endsWith(p)]: [p] is a suffix of [s]. *)
Fixpoint endsWith (p s : string) : bool :=
  if String.eqb p s then true
  else match s with
       | EmptyString => false
       | String _ s' => endsWith p s'
       end.

(** Index clamping of [String.prototype.slice]. *)
Definition clampIndex (len i : Z) : Z :=
  if (i <? 0)%Z then Z.max (len + i) 0 else Z.min i len.

(** [s.slice(b, e)] *)
Definition slice (b e : Z) (s : string) : string :=
  let len := Z.of_nat (String.length s) in
  let from := clampIndex len b in
  let to := clampIndex len e in
  String.substring (Z.to_nat from) (Z.to_nat (to - from)) s.

(** All but the last character; what [slice(0, -1)] computes. *)
Fixpoint dropLast (s : string) : string :=
  match s with
  | EmptyString => EmptyString
  | String c EmptyString => EmptyString
  | String c s' => String c (dropLast s')
  end.

End JsString.

(** ** Path normalisation: [ensureSlash] *)

Definition ensureSlash (part : string) : string :=
  let part := if JsString.startsWith "/" part then part else "/" ++ part in
  if JsString.endsWith "/" part then JsString.slice 0 (-1) part else part.

(** ** Regular expressions (the fragment the router builds)

    [shouldDisplayRoute] hands a pattern string to [String.prototype.match],
    which compiles it with [new RegExp(pattern)] and searches for a match
    anywhere in the subject.  The fragment below covers the patterns built
    from paths without regex metacharacters of their own: literals, the
    postfix [?], groups with alternation, character classes and [$]. *)

Inductive regex : Type :=
| REps
| RChar (c : ascii)
| RClass (cs : list ascii)
| REnd
| RSeq (r1 r2 : regex)
| RAlt (r1 r2 : regex)
| ROpt (r : regex).

(** Backtracking matcher in continuation-passing style: [rmatch r s k] holds
    when [r] matches a prefix of [s] and [k] accepts the rest. *)
Fixpoint rmatch (r : regex) (s : string) (k : string -> bool) : bool :=
  match r with
  | REps => k s
  | RChar c =>
      match s with
      | String d s' => Ascii.eqb c d && k s'
      | EmptyString => false
      end
  | RClass cs =>
      match s with
      | String d s' => existsb (Ascii.eqb d) cs && k s'
      | EmptyString => false
      end
  | REnd =>
      match s with
      | EmptyString => k s
      | String _ _ => false
      end
  | RSeq r1 r2 => rmatch r1 s (fun s' => rmatch r2 s' k)
  | RAlt r1 r2 => rmatch r1 s k || rmatch r2 s k
  | ROpt r1 => rmatch r1 s k || k s
  end.

(** A match may start at any index of the subject (no [^] anchor). *)
Fixpoint rsearch (r : regex) (s : string) : bool :=
  rmatch r s (fun _ => true)
  || match s with
     | EmptyString => false
     | String _ s' => rsearch r s'
     end.

(** Characters with a meaning of their own in a pattern that the fragment
    does not cover. *)
Definition unsupportedChar (c : ascii) : bool :=
  existsb (Ascii.eqb c) ["\"; "^"; "."; "*"; "+"; "{"; "}"; "]"]%char.

(** Body of a character class up to the closing bracket. *)
Fixpoint parseClass (s : string) (acc : list ascii) : option (regex * string) :=
  match s with
  | EmptyString => None
  | String c s' =>
      if Ascii.eqb c "]" then Some (RClass (rev acc), s')
      else if Ascii.eqb c "\" || Ascii.eqb c "^" || Ascii.eqb c "-" then None
      else parseClass s' (c :: acc)
  end.

(** A postfix [?] applies to the atom just read. *)
Definition parseQuant (r : regex) (s : string) : regex * string :=
  match s with
  | String "?" s' => (ROpt r, s')
  | _ => (r, s)
  end.

(** Recursive descent over Disjunction / Alternative / Term.  [parseAlt]
    stops before a closing parenthesis or at the end of the pattern. *)
Fixpoint parseAlt (fuel : nat) (s : string) : option (regex * string) :=
  match fuel with
  | O => None
  | S fuel' =>
      let fix parseSeq (n : nat) (s : string) : option (regex * string) :=
        match n with
        | O => None
        | S n' =>
            match s with
            | EmptyString => Some (REps, s)
            | String c s' =>
                if Ascii.eqb c ")" || Ascii.eqb c "|" then Some (REps, s)
                else
                  let atom :=
                    if Ascii.eqb c "(" then
                      match parseAlt fuel' s' with
                      | Some (r, String ")" rest) => Some (r, rest)
                      | _ => None
                      end
                    else if Ascii.eqb c "[" then parseClass s' []
                    else if Ascii.eqb c "$" then Some (REnd, s')
                    else if Ascii.eqb c "?" || unsupportedChar c then None
                    else Some (RChar c, s') in
                  match atom with
                  | None => None
                  | Some (r, rest) =>
                      let '(r, rest) := parseQuant r rest in
                      match parseSeq n' rest with
                      | Some (r', rest') => Some (RSeq r r', rest')
                      | None => None
                      end
                  end
            end
        end in
      match parseSeq (S (String.length s)) s with
      | Some (r, String "|" rest) =>
          match parseAlt fuel' rest with
          | Some (r', rest') => Some (RAlt r r', rest')
          | None => None
          end
      | other => other
      end
  end.

(** [new RegExp(pattern)]; [None] when the pattern leaves the fragment. *)
Definition RegExp (pattern : string) : option regex :=
  match parseAlt (S (String.length pattern)) pattern with
  | Some (r, EmptyString) => Some r
  | _ => None
  end.

(** [!!subject.match(pattern)] for a pattern given as a string. *)
Definition matches (subject pattern : string) : option bool :=
  match RegExp pattern with
  | Some r => Some (rsearch r subject)
  | None => None
  end.

(** ** The display predicate: [shouldDisplayRoute] *)

Definition lineTerminator (c : ascii) : bool :=
  Ascii.eqb c "010" || Ascii.eqb c "013".

Fixpoint noLineTerminator (s : string) : bool :=
  match s with
  | EmptyString => true
  | String c s' => negb (lineTerminator c) && noLineTerminator s'
  end.

(** Splits at the last slash: the two capture groups of the regular
    expression in [shouldDisplayRoute] (a greedy prefix, a slash, and a
    slash-free rest). *)
Fixpoint splitLastSlash (s : string) : option (string * string) :=
  match s with
  | EmptyString => None
  | String c s' =>
      match splitLastSlash s' with
      | Some (a, b) => Some (String c a, b)
      | None => if Ascii.eqb c "/" then Some (EmptyString, s') else None
      end
  end.

(** The [path.replace] call: group 1, an optional slash, group 2 and the
    terminator group; a subject the expression does not match is returned
    unchanged. *)
Definition routePattern (path : string) : string :=
  match splitLastSlash path with
  | Some (g1, g2) =>
      if noLineTerminator g1 then g1 ++ "/?" ++ g2 ++ "([/?#]|$)" else path
  | None => path
  end.

(** [shouldDisplayRoute(route, isAbsolute)], with the two pieces of ambient
    state it reads made explicit: [pathState.info.rootPath] and
    [window.location.pathname]. *)
Definition shouldDisplayRoute (rootPath currPath route : string)
    (isAbsolute : bool) : option bool :=
  let path := rootPath ++ ensureSlash route in
  if isAbsolute then
    Some (String.eqb currPath path || String.eqb currPath (path ++ "/"))
  else
    matches currPath (routePattern path).

(** ** Values, heap objects and the page *)

(** Object identities: DOM nodes, binding handles and plain objects share
    one address space. *)
Definition ref := nat.

(** User functions (render functions, patch functions, producer thunks) are
    named; their behaviour is supplied by the environment. *)
Definition fid := nat.

Inductive value : Type :=
| VUndefined
| VNull
| VBool (b : bool)
| VNumber (n : Z)
| VNaN
| VString (s : string)
| VFunction (f : fid)
| VNode (r : ref)
| VObject (ctor : option string) (r : ref).

#[global] Instance value_eq_dec : EqDecision value.
Proof. solve_decision. Defined.

(** A non-node object carries the name of its constructor, or [None] when it
    has no [constructor] property at all (a null-prototype object).  The
    proxy [fnstate] returns is represented by its target: the two differ in
    that assignments and deletions through the proxy run the traps, which
    are operations of their own below. *)

(** What a [throw] propagates: a value thrown by a user function, the
    [stack] of a fresh [Error] with the given message (what every [throw]
    statement of the module throws), or an instance of [Error] or of a
    subclass, raised by the platform, with its name and message. *)
Inductive thrown : Type :=
| Thrown (v : value)
| ThrownStack (message : string)
| ThrownError (name message : string).

(** A computation returns, throws, or leaves the part of the platform that
    is modelled here. *)
Inductive outcome (A : Type) : Type :=
| Return (a : A)
| Throw (t : thrown)
| Unmodelled.
Arguments Return {A} a.
Arguments Throw {A} t.
Arguments Unmodelled {A}.

#[global] Instance outcome_ret : MRet outcome := fun A a => Return a.
#[global] Instance outcome_bind : MBind outcome := fun A B k m =>
  match m with
  | Return a => k a
  | Throw t => Throw t
  | Unmodelled => Unmodelled
  end.

Definition typeof (v : value) : string :=
  match v with
  | VUndefined => "undefined"
  | VNull => "object"
  | VBool _ => "boolean"
  | VNumber _ | VNaN => "number"
  | VString _ => "string"
  | VFunction _ => "function"
  | VNode _ | VObject _ _ => "object"
  end.

(** ToBoolean *)
Definition truthy (v : value) : bool :=
  match v with
  | VUndefined | VNull | VNaN => false
  | VBool b => b
  | VNumber n => negb (n =? 0)%Z
  | VString s => negb (String.eqb s "")
  | VFunction _ | VNode _ | VObject _ _ => true
  end.

(** A DOM node.  Text nodes have [nodeName = "#text"] and carry [data];
    elements carry string attributes, and the [absolute] property that the
    element builder defines for a non-string attribute value. *)
Record node : Type := Node {
  nodeName : string;
  data : string;
  attributes : list (string * string);
  absolute : value;
  parentNode : option ref;
  childNodes : list ref
}.

Definition isText (n : node) : bool := String.eqb (nodeName n) "#text".

(** The closure pushed by [addObserver]: its captured [el], [element] and
    [update]. *)
Record observer : Type := Observer {
  obsEl : ref;
  obsElement : value;
  obsUpdate : value
}.

#[global] Instance observer_eq_dec : EqDecision observer.
Proof. solve_decision. Defined.

(** The whole mutable state of a page running the module. *)
Record World : Type := mkWorld {
  dom : gmap ref node;
  props : gmap ref (list (string * value));
  fnInfo : gmap ref nat;
  current : gmap ref ref;
  observers : gmap ref (list (option observer));
  nextRef : ref;
  lastId : nat;
  notified : list (ref * nat * value)
}.

(** [dom]: the nodes; [props]: own enumerable data properties of objects;
    [fnInfo]: the [id] of the frozen [_fn_element_info] of every tagged
    object; [current]: the [current] field of every binding handle;
    [observers]: for the target of every state, the array held by the
    [observers] variable of its [fnstate] closure, a [None] being a deleted
    slot; [lastId]: the module's counter; [notified]: a ghost trace, one
    entry (state, slot, argument) per call [observer( args[ 0 ] )]. *)

Definition setDom (d : gmap ref node) (w : World) : World :=
  mkWorld d (props w) (fnInfo w) (current w) (observers w) (nextRef w)
    (lastId w) (notified w).
Definition setProps (p : gmap ref (list (string * value))) (w : World) : World :=
  mkWorld (dom w) p (fnInfo w) (current w) (observers w) (nextRef w)
    (lastId w) (notified w).
Definition setFnInfo (t : gmap ref nat) (w : World) : World :=
  mkWorld (dom w) (props w) t (current w) (observers w) (nextRef w)
    (lastId w) (notified w).
Definition setCurrent (c : gmap ref ref) (w : World) : World :=
  mkWorld (dom w) (props w) (fnInfo w) c (observers w) (nextRef w)
    (lastId w) (notified w).
Definition setObservers (o : gmap ref (list (option observer))) (w : World)
    : World :=
  mkWorld (dom w) (props w) (fnInfo w) (current w) o (nextRef w)
    (lastId w) (notified w).
Definition setNextRef (n : ref) (w : World) : World :=
  mkWorld (dom w) (props w) (fnInfo w) (current w) (observers w) n
    (lastId w) (notified w).
Definition setLastId (n : nat) (w : World) : World :=
  mkWorld (dom w) (props w) (fnInfo w) (current w) (observers w) (nextRef w)
    n (notified w).
Definition setNotified (l : list (ref * nat * value)) (w : World) : World :=
  mkWorld (dom w) (props w) (fnInfo w) (current w) (observers w) (nextRef w)
    (lastId w) l.

Definition emptyWorld : World :=
  mkWorld ∅ ∅ ∅ ∅ ∅ 0 0 [].

(** ** Failures *)

(** [new Error(message).stack]: the engine's rendering of the stack of a
    fresh error, or [undefined] on an engine without stacks. *)
Definition stackOf (stack : string -> option string) (message : string)
    : value :=
  match stack message with
  | Some s => VString s
  | None => VUndefined
  end.

(** Errors the platform raises inside the module's code. *)
Definition TypeError (message : string) : thrown :=
  ThrownError "TypeError" message.
Definition HierarchyRequestError : thrown :=
  ThrownError "HierarchyRequestError"
    "The new child element contains the parent".
Definition NotFoundError : thrown :=
  ThrownError "NotFoundError"
    "The node to be removed is not a child of this node".

(** [t instanceof Error] for what propagates.  User functions are taken to
    throw values of the model, which has no error objects among them. *)
Definition isErrorInstance (t : thrown) : bool :=
  match t with
  | ThrownError _ _ => true
  | Thrown _ | ThrownStack _ => false
  end.

(** The value the caller catches, when it is one of the model. *)
Definition caught (stack : string -> option string) (t : thrown)
    : option value :=
  match t with
  | Thrown v => Some v
  | ThrownStack message => Some (stackOf stack message)
  | ThrownError _ _ => None
  end.

(** ** The DOM operations the module calls *)

Definition withParent (p : option ref) (n : node) : node :=
  Node (nodeName n) (data n) (attributes n) (absolute n) p (childNodes n).

Definition withChildren (l : list ref) (n : node) : node :=
  Node (nodeName n) (data n) (attributes n) (absolute n) (parentNode n) l.

Definition without (r : ref) (l : list ref) : list ref :=
  filter (fun x => x <> r) l.

Definition substitute (old new : ref) (l : list ref) : list ref :=
  (fun x => if Nat.eqb x old then new else x) <$> l.

(** The operations on the tree of nodes alone. *)
Module Tree.

Definition upd (r : ref) (f : node -> node) (d : gmap ref node)
    : gmap ref node :=
  match d !! r with
  | Some n => <[r := f n]> d
  | None => d
  end.

Definition parentOf (r : ref) (d : gmap ref node) : option ref :=
  match d !! r with
  | Some n => parentNode n
  | None => None
  end.

Definition childrenOf (r : ref) (d : gmap ref node) : list ref :=
  match d !! r with
  | Some n => childNodes n
  | None => []
  end.

(** Takes a node out of its parent, if it has one. *)
Definition detach (r : ref) (d : gmap ref node) : gmap ref node :=
  match parentOf r d with
  | Some q =>
      upd r (withParent None)
        (upd q (fun n => withChildren (without r (childNodes n)) n) d)
  | None => d
  end.

(** Is [a] the node [r] or one of its ancestors?  The chain of parents is
    followed for at most [fuel] steps. *)
Fixpoint isInclusiveAncestor (fuel : nat) (a r : ref) (d : gmap ref node)
    : bool :=
  Nat.eqb a r
  || match fuel with
     | O => false
     | S fuel' =>
         match parentOf r d with
         | Some p => isInclusiveAncestor fuel' a p d
         | None => false
         end
     end.

(** [old.replaceWith(new)]: nothing happens when [old] has no parent;
    otherwise [new] leaves the place it had and takes the place of [old]. *)
Definition replaceWith (old new : ref) (d : gmap ref node)
    : outcome (gmap ref node) :=
  match parentOf old d with
  | None => Return d
  | Some p =>
      if Nat.eqb old new then Return d
      else if isInclusiveAncestor (size d) new p d
      then Throw HierarchyRequestError
      else
        let d1 := detach new d in
        let d2 := upd p
                    (fun n => withChildren (substitute old new (childNodes n)) n)
                    d1 in
        Return (upd new (withParent (Some p)) (upd old (withParent None) d2))
  end.

(** [parent.append(child)] for one node. *)
Definition append (parent child : ref) (d : gmap ref node)
    : outcome (gmap ref node) :=
  if isInclusiveAncestor (size d) child parent d
  then Throw HierarchyRequestError
  else
    let d1 := detach child d in
    Return (upd child (withParent (Some parent))
              (upd parent
                 (fun n => withChildren (childNodes n ++ [child]) n) d1)).

(** [parent.removeChild(child)] *)
Definition removeChild (parent child : ref) (d : gmap ref node)
    : outcome (gmap ref node) :=
  match parentOf child d with
  | Some p =>
      if Nat.eqb p parent then Return (detach child d)
      else Throw NotFoundError
  | None => Throw NotFoundError
  end.

(** [while( sw.firstChild ) sw.removeChild( sw.firstChild )]; every round
    removes a child, so as many rounds as there are children suffice. *)
Fixpoint removeAllChildren (fuel : nat) (sw : ref) (d : gmap ref node)
    : outcome (gmap ref node) :=
  match childrenOf sw d with
  | [] => Return d
  | c :: _ =>
      match fuel with
      | O => Return d
      | S fuel' => d' ← removeChild sw c d; removeAllChildren fuel' sw d'
      end
  end.

End Tree.

(** The same on the page. *)
Definition getNode (r : ref) (w : World) : option node := dom w !! r.

Definition parentOf (r : ref) (w : World) : option ref :=
  Tree.parentOf r (dom w).

Definition childrenOf (r : ref) (w : World) : list ref :=
  Tree.childrenOf r (dom w).

Definition replaceWith (old new : ref) (w : World) : outcome World :=
  d ← Tree.replaceWith old new (dom w); mret (setDom d w).

Definition append (parent child : ref) (w : World) : outcome World :=
  d ← Tree.append parent child (dom w); mret (setDom d w).

Definition removeAllChildren (sw : ref) (w : World) : outcome World :=
  d ← Tree.removeAllChildren (length (childrenOf sw w)) sw (dom w);
  mret (setDom d w).

Definition alloc (n : node) (w : World) : ref * World :=
  (nextRef w, setNextRef (S (nextRef w)) (setDom (<[nextRef w := n]> (dom w)) w)).

(** [document.createTextNode(s)] *)
Definition createTextNode (s : string) (w : World) : ref * World :=
  alloc (Node "#text" s [] VUndefined None []) w.

(** [document.createElement(tag)] followed by [setAttribute] for each of the
    given string attributes. *)
Definition createElement (tag : string) (attrs : list (string * string))
    (w : World) : ref * World :=
  alloc (Node tag "" attrs VUndefined None []) w.

Fixpoint assoc {A : Type} (k : string) (l : list (string * A)) : option A :=
  match l with
  | [] => None
  | (k', a) :: l' => if String.eqb k k' then Some a else assoc k l'
  end.

(** [node.getAttribute(name)]; a text node has no such method. *)
Definition getAttribute (name : string) (r : ref) (w : World) : outcome value :=
  match getNode r w with
  | Some n =>
      if isText n then Throw (TypeError "getAttribute is not a function")
      else match assoc name (attributes n) with
           | Some s => Return (VString s)
           | None => Return VNull
           end
  | None => Throw (TypeError "getAttribute is not a function")
  end.

(** ** Identity tags *)

(** [tagElement(el)] *)
Definition tagElement (el : ref) (w : World) : World :=
  match fnInfo w !! el with
  | Some _ => w
  | None => setLastId (S (lastId w)) (setFnInfo (<[el := lastId w]> (fnInfo w)) w)
  end.

(** [isTagged(el)] *)
Definition isTagged (el : ref) (w : World) : bool :=
  match fnInfo w !! el with
  | Some _ => true
  | None => false
  end.

(** [getElId(el)]: the id, or [None] for the [false] an untagged object
    yields. *)
Definition getElId (el : ref) (w : World) : option nat := fnInfo w !! el.

Definition sameId (a b : option nat) : bool :=
  match a, b with
  | Some x, Some y => Nat.eqb x y
  | None, None => true
  | _, _ => false
  end.

(** ** The engine *)

Inductive method : Type := set | deleteProperty.

Definition fnStateInfo : string := "_fn_state_info".

(** The object behind a value that is one. *)
Definition refOf (v : value) : option ref :=
  match v with
  | VNode r | VObject _ r => Some r
  | _ => None
  end.

Definition propsOf (r : ref) (w : World) : list (string * value) :=
  default [] (props w !! r).

Definition observersOf (st : ref) (w : World) : list (option observer) :=
  default [] (observers w !! st).

Fixpoint assocSet {A : Type} (k : string) (a : A) (l : list (string * A))
    : list (string * A) :=
  match l with
  | [] => [(k, a)]
  | (k', a') :: l' =>
      if String.eqb k k' then (k, a) :: l' else (k', a') :: assocSet k a l'
  end.

Definition assocRemove {A : Type} (k : string) (l : list (string * A))
    : list (string * A) :=
  filter (fun e => fst e <> k) l.

(** [el.constructor && el.constructor.name || typeof el] *)
Definition constructorName (el : value) : string :=
  match el with
  | VBool _ => "Boolean"
  | VNumber _ | VNaN => "Number"
  | VString _ => "String"
  | VFunction _ => "Function"
  | VObject (Some c) _ => if String.eqb c "" then typeof el else c
  | _ => typeof el
  end.

(** The two failures of the renderer, under the names the design gives
    them. *)
Definition MissingChild : thrown := ThrownStack "children can't be undefined".
Definition InvalidElementType (name : string) : thrown :=
  ThrownStack ("Element type " ++ name ++ " " ++
               "is not supported. Elements must be one of [String, Function, Element, HTMLElement]").

Section Engine.

(** The behaviour of the user's functions.  A user function builds and
    patches nodes and plain objects; it does not call back into the
    module. *)
Variable call : fid -> list value -> World -> outcome (value * World).

(** [throw new Error( message ).stack] *)
Definition throwStack {A : Type} (message : string) : outcome A :=
  Throw (ThrownStack message).

Definition userEffect (w w' : World) : World :=
  mkWorld (dom w') (props w') (fnInfo w) (current w) (observers w)
    (nextRef w') (lastId w) (notified w).

(** A call [f( ...args )]. *)
Definition invoke (f : value) (args : list value) (w : World)
    : outcome (value * World) :=
  match f with
  | VFunction g => '(v, w') ← call g args w; mret (v, userEffect w w')
  | _ => Throw (TypeError "not a function")
  end.

(** [isNode(el)], as the boolean its callers test. *)
Definition isNode (el : value) : outcome bool :=
  match el with
  | VNode _ => Return true
  | VObject None _ =>
      Throw (TypeError "Cannot read properties of undefined (reading 'toString')")
  | _ => Return false
  end.

Definition badElementType {A : Type} (el : value) : outcome A :=
  match el with
  | VUndefined | VNull =>
      Throw (TypeError "Cannot read properties of undefined (reading 'constructor')")
  | VNode _ => Unmodelled
  | _ => Throw (InvalidElementType (constructorName el))
  end.

Definition renderElement (element : value) (w : World)
    : outcome (ref * World) :=
  if negb (String.eqb (typeof element) "string") && negb (truthy element)
  then Throw MissingChild
  else
    match element with
    | VString s => Return (createTextNode s w)
    | VFunction _ =>
        '(returnedElement, w1) ← invoke element [] w;
        match returnedElement with
        | VString s => Return (createTextNode s w1)
        | VNode r => Return (r, w1)
        | _ => _ ← isNode returnedElement; badElementType element
        end
    | VNode r => Return (r, w)
    | _ => _ ← isNode element; badElementType element
    end.

(** [Reflect[ method ]( ...args )] on a plain target.  The state's own
    [_fn_state_info] is neither writable nor configurable. *)
Definition Reflect (m : method) (args : list value) (w : World)
    : outcome (value * World) :=
  match m, args with
  | set, target :: VString k :: v :: _ =>
      match refOf target with
      | Some r =>
          if String.eqb k fnStateInfo && bool_decide (is_Some (observers w !! r))
          then Return (VBool false, w)
          else Return (VBool true,
                       setProps (<[r := assocSet k v (propsOf r w)]> (props w)) w)
      | None => Throw (TypeError "Reflect.set called on non-object")
      end
  | deleteProperty, target :: VString k :: _ =>
      match refOf target with
      | Some r =>
          if String.eqb k fnStateInfo && bool_decide (is_Some (observers w !! r))
          then Return (VBool false, w)
          else Return (VBool true,
                       setProps (<[r := assocRemove k (propsOf r w)]> (props w)) w)
      | None => Throw (TypeError "Reflect.deleteProperty called on non-object")
      end
  | _, _ => Unmodelled
  end.

(** [delete observers[ id ]] *)
Definition deleteSlot (st : ref) (id : option nat) (w : World) : World :=
  match id with
  | Some i =>
      setObservers (<[st := <[i := None]> (observersOf st w)]> (observers w)) w
  | None => w
  end.

(** The node an observer computes:
    [update ? update( el.current, state ) : renderElement( element( state ) )]. *)
Definition nextNode (o : observer) (cur : ref) (state : value) (w : World)
    : outcome (value * World) :=
  if truthy (obsUpdate o)
  then invoke (obsUpdate o) [VNode cur; state] w
  else '(x, w') ← invoke (obsElement o) [state] w;
       '(r, w'') ← renderElement x w';
       mret (VNode r, w'').

(** The closure [addObserver] pushes, applied to [state]. *)
Definition runObserver (st : ref) (o : observer) (state : value) (w : World)
    : outcome World :=
  match current w !! obsEl o with
  | None => Unmodelled
  | Some cur =>
      '(newElement, w1) ← nextNode o cur state w;
      b ← (if truthy newElement then isNode newElement else Return false);
      match newElement with
      | VNode new =>
          if (b : bool) then
            let w2 := if isTagged new w1 then w1 else tagElement new w1 in
            if negb (sameId (getElId cur w2) (getElId new w2)) then
              let w3 := deleteSlot st (getElId cur w2) w2 in
              w4 ← replaceWith cur new w3;
              mret (setCurrent (<[obsEl o := new]> (current w4)) w4)
            else Return w2
          else Return w1
      | _ => Return w1
      end
  end.

Definition logNotified (st : ref) (i : nat) (arg : value) (w : World) : World :=
  setNotified (notified w ++ [(st, i, arg)]) w.

(** [for( let observer of observers ) observer( args[ 0 ] )]: the array
    iterator visits the indices below the length, holes included. *)
Fixpoint notifyLoop (st : ref) (arg : value) (n i : nat) (w : World)
    : outcome World :=
  match n with
  | O => Return w
  | S n' =>
      match observersOf st w !! i with
      | Some (Some o) =>
          w' ← runObserver st o arg (logNotified st i arg w);
          notifyLoop st arg n' (S i) w'
      | _ => Throw (TypeError "observer is not a function")
      end
  end.

(** [notify( method )( ...args )], for the state whose target is [st]. *)
Definition notify (st : ref) (m : method) (args : list value) (w : World)
    : outcome (value * World) :=
  '(result, w1) ← Reflect m args w;
  w2 ← notifyLoop st (nth 0 args VUndefined)
         (length (observersOf st w1)) 0 w1;
  mret (result, w2).

(** The assignment [p[ k ] = v] and the deletion [delete p[ k ]] on the
    proxy of [initialState]: the traps, called with the target first. *)
Definition proxySet (initialState : value) (k : string) (v : value)
    (w : World) : outcome (value * World) :=
  match refOf initialState with
  | Some st => notify st set [initialState; VString k; v; initialState] w
  | None => Unmodelled
  end.

Definition proxyDelete (initialState : value) (k : string) (w : World)
    : outcome (value * World) :=
  match refOf initialState with
  | Some st => notify st deleteProperty [initialState; VString k] w
  | None => Unmodelled
  end.

(** [addObserver( el, element, update )] of the state whose target is
    [st]. *)
Definition addObserver (st el : ref) (element update : value) (w : World)
    : World :=
  let w1 := tagElement el w in
  setObservers
    (<[st := (observersOf st w1 ++ [Some (Observer el element update)])%list]>
       (observers w1)) w1.

(** [Object.assign( p, initialState )]: every own enumerable key of the
    source, read from the source and assigned through the proxy. *)
Fixpoint assignKeys (initialState : value) (st : ref) (keys : list string)
    (w : World) : outcome World :=
  match keys with
  | [] => Return w
  | k :: keys' =>
      match assoc k (propsOf st w) with
      | Some v =>
          '(result, w') ← notify st set
                            [initialState; VString k; v; initialState] w;
          if truthy result then assignKeys initialState st keys' w'
          else Throw (TypeError "'set' on proxy: trap returned falsish")
      | None => assignKeys initialState st keys' w
      end
  end.

(** The [reset] of the state created from [initialState]. *)
Definition reset (initialState reInit : value) (w : World) : outcome World :=
  match refOf initialState with
  | Some st =>
      let w1 := setObservers (<[st := []]> (observers w)) w in
      if truthy reInit
      then assignKeys initialState st (fst <$> propsOf st w1) w1
      else Return w1
  | None => Unmodelled
  end.

Definition resetState (state reinit : value) (w : World) : outcome World :=
  match state with
  | VUndefined | VNull =>
      Throw (TypeError "Cannot read properties of undefined (reading '_fn_state_info')")
  | _ =>
      match refOf state with
      | Some st =>
          match observers w !! st with
          | Some _ => reset state reinit w
          | None => Return w
          end
      | None => Return w
      end
  end.

Definition fnstate (initialState : value) (w : World)
    : outcome (value * World) :=
  if negb (String.eqb (typeof initialState) "object")
  then throwStack "initial state must be an object"
  else
    match refOf initialState with
    | None =>
        Throw (TypeError "Cannot create proxy with a non-object as target or handler")
    | Some st =>
        match observers w !! st with
        | Some _ => Throw (TypeError "Cannot redefine property: _fn_state_info")
        | None =>
            Return (initialState, setObservers (<[st := []]> (observers w)) w)
        end
    end.

(** [isfnstate(state)] *)
Definition isfnstate (state : value) (w : World) : outcome bool :=
  match state with
  | VUndefined | VNull =>
      Throw (TypeError "Cannot read properties of undefined (reading 'hasOwnProperty')")
  | VObject None _ => Throw (TypeError "state.hasOwnProperty is not a function")
  | _ =>
      match refOf state with
      | Some st => Return (bool_decide (is_Some (observers w !! st)))
      | None => Return false
      end
  end.

(** ** Bindings *)

(** The first argument of [fnbind]: one state, or an array of states. *)
Inductive stateArg : Type :=
| OneState (st : value)
| StateArray (arr : ref) (sts : list value).

Definition stateValue (state : stateArg) : value :=
  match state with
  | OneState st => st
  | StateArray arr _ => VObject (Some "Array") arr
  end.

(** [Array.isArray( state ) && state || [ state ]] *)
Definition statesOf (state : stateArg) : list value :=
  match state with
  | OneState st => [st]
  | StateArray _ sts => sts
  end.

(** The accessor [fnbind] returns: its captured [el], [element], [state]. *)
Record accessor : Type := Accessor {
  accEl : ref;
  accElement : value;
  accState : value
}.

(** [marker()] *)
Definition marker (w : World) : ref * World :=
  createElement "div" [("style", "display:none")] w.

(** The object literal [{ current: node }]. *)
Definition newHandle (node : ref) (w : World) : ref * World :=
  (nextRef w,
   setNextRef (S (nextRef w)) (setCurrent (<[nextRef w := node]> (current w)) w)).

(** Platform conversion of a value to a string, for messages. *)
Variable toString : value -> string.

(** The [reduce] over the states. *)
Fixpoint bindStates (states : list value) (el : ref) (element update : value)
    (w : World) : outcome World :=
  match states with
  | [] => Return w
  | st :: states' =>
      ok ← isfnstate st w;
      if (ok : bool) then
        match refOf st with
        | Some r => bindStates states' el element update
                      (addObserver r el element update w)
        | None => Unmodelled
        end
      else throwStack ("State: " ++ toString st ++
                       " is not initialized. Use fnstate() to initialize.")
  end.

Definition fnbind (state : stateArg) (element update : value) (w : World)
    : outcome (accessor * World) :=
  notBindable ←
    (if negb (String.eqb (typeof element) "function")
     then n ← isNode element; mret (negb n)
     else Return false);
  if (notBindable : bool)
  then throwStack "You can only bind functions and Elements"
  else
    n ← isNode element;
    if (n : bool) && negb (String.eqb (typeof update) "function")
    then throwStack "You must supply an update function when binding an element"
    else
      let '(m, w1) := marker w in
      let '(el, w2) := newHandle m w1 in
      w3 ← bindStates (statesOf state) el element update w2;
      mret (Accessor el element (stateValue state), w3).

(** A call of the accessor. *)
Definition callAccessor (a : accessor) (w : World) : outcome (ref * World) :=
  '(r, w1) ←
    (if String.eqb (typeof (accElement a)) "function"
     then '(x, w') ← invoke (accElement a) [accState a] w; renderElement x w'
     else match accElement a with
          | VNode r => Return (r, w)
          | _ => Unmodelled
          end);
  mret (r, setCurrent (<[accEl a := r]> (current w1)) w1).

(** ** Mounting *)

Variable getElementById : string -> World -> option ref.

Fixpoint renderAll (children : list value) (w : World)
    : outcome (list ref * World) :=
  match children with
  | [] => Return ([], w)
  | c :: cs =>
      '(r, w1) ← renderElement c w;
      '(rs, w2) ← renderAll cs w1;
      mret (r :: rs, w2)
  end.

Fixpoint appendAll (parent : ref) (nodes : list ref) (w : World)
    : outcome World :=
  match nodes with
  | [] => Return w
  | r :: rs => w1 ← append parent r w; appendAll parent rs w1
  end.

Definition fnapp (root : value) (children : list value) (w : World)
    : outcome World :=
  root' ←
    match root with
    | VString id =>
        match getElementById id w with
        | Some r => Return (VNode r)
        | None => throwStack "No such element with id null"
        end
    | _ => Return root
    end;
  n ← (if truthy root' then isNode root' else Return false);
  match root' with
  | VNode r =>
      if (n : bool) then
        '(nodes, w1) ← renderAll children w;
        appendAll r nodes w1
      else throwStack "Invalid root element"
  | _ => throwStack "Invalid root element"
  end.

(** ** The render function of [routeSwitch] *)

(** [!!rendered.absolute || rendered.getAttribute('absolute') === 'true'] *)
Definition routeAbsolute (rendered : ref) (w : World) : outcome bool :=
  match getNode rendered w with
  | Some n =>
      if truthy (absolute n) then Return true
      else
        abs ← getAttribute "absolute" rendered w;
        mret (match abs with
              | VString a => String.eqb a "true"
              | _ => false
              end)
  | None => Throw (TypeError "getAttribute is not a function")
  end.

(** The [for] loop over the children, with the root path held by
    [pathState] and the browser's current path made explicit. *)
Fixpoint switchChildren (rootPath currPath : string) (sw : ref)
    (children : list value) (w : World) : outcome (value * World) :=
  match children with
  | [] => Return (VUndefined, w)
  | child :: children' =>
      '(rendered, w1) ← renderElement child w;
      path ← getAttribute "path" rendered w1;
      match path with
      | VString route =>
          if truthy path then
            isAbsolute ← routeAbsolute rendered w1;
            match shouldDisplayRoute rootPath currPath route isAbsolute with
            | Some true => w2 ← append sw rendered w1; mret (VNode sw, w2)
            | Some false => switchChildren rootPath currPath sw children' w1
            | None => Unmodelled
            end
          else switchChildren rootPath currPath sw children' w1
      | _ => switchChildren rootPath currPath sw children' w1
      end
  end.

Definition routeSwitchRender (rootPath currPath : string) (sw : ref)
    (children : list value) (w : World) : outcome (value * World) :=
  w1 ← removeAllChildren sw w;
  switchChildren rootPath currPath sw children w1.

End Engine.

(** ** Attribute objects: [isAttrs] and [getAttrs] *)

(** [Array.isArray(val)]; arrays are the objects made by [Array]. *)
Definition isArray (val : value) : bool :=
  match val with
  | VObject (Some c) _ => String.eqb c "Array"
  | _ => false
  end.

(** [isAttrs(val)] *)
Definition isAttrs (val : value) : outcome bool :=
  if String.eqb (typeof val) "object" && negb (isArray val)
  then n ← isNode val; mret (negb n)
  else Return false.

(** The object literal [{}]. *)
Definition newObject (w : World) : ref * World :=
  (nextRef w,
   setNextRef (S (nextRef w)) (setProps (<[nextRef w := []]> (props w)) w)).

(** [Object.assign( target, source )] on a plain target: the own enumerable
    keys of the source, each read from the source and assigned; [null] is
    no source. *)
Definition objectAssign (target : ref) (source : value) (w : World) : World :=
  match refOf source with
  | Some r =>
      setProps
        (<[target :=
             foldl (fun l k => match assoc k (propsOf r w) with
                               | Some v => assocSet k v l
                               | None => l
                               end)
               (propsOf target w) (fst <$> propsOf r w)]> (props w)) w
  | None => w
  end.

(** The [reduce] of [getAttrs] over the children. *)
Fixpoint mergeAttrs (attrs : ref) (children : list value) (w : World)
    : outcome World :=
  match children with
  | [] => Return w
  | child :: children' =>
      b ← isAttrs child;
      mergeAttrs attrs children'
        (if (b : bool) then objectAssign attrs child w else w)
  end.

Definition getAttrs (children : list value) (w : World)
    : outcome (value * World) :=
  let '(attrs, w0) := newObject w in
  w' ← mergeAttrs attrs children w0;
  mret (VObject (Some "Object") attrs, w').

(** ** The route state *)

(** [s.replace( pattern, '' )] for a pattern given as a string: the first
    occurrence of the pattern is taken out. *)
Fixpoint removeFirst (pattern s : string) : string :=
  if String.prefix pattern s
  then String.substring (String.length pattern)
         (String.length s - String.length pattern) s
  else match s with
       | EmptyString => EmptyString
       | String c s' => String c (removeFirst pattern s')
       end.

(** [window.location.pathname.replace( pathState.info.rootPath, '' ) || '/'],
    the route the history listener computes. *)
Definition currentRouteOf (rootPath pathname : string) : string :=
  let route := removeFirst rootPath pathname in
  if String.eqb route "" then "/" else route.

(** [pathState.info], when it is an object. *)
Definition infoOf (pathState : value) (w : World) : option value :=
  match refOf pathState with
  | Some ps => assoc "info" (propsOf ps w)
  | None => None
  end.

(** [pathState.info.rootPath], when it is a string. *)
Definition rootPathOf (pathState : value) (w : World) : option string :=
  match infoOf pathState w with
  | Some (VObject _ i) =>
      match assoc "rootPath" (propsOf i w) with
      | Some (VString s) => Some s
      | _ => None
      end
  | _ => None
  end.

(** [pathState.info.currentRoute] *)
Definition currentRouteIn (pathState : value) (w : World) : option value :=
  match infoOf pathState w with
  | Some (VObject _ i) => assoc "currentRoute" (propsOf i w)
  | _ => None
  end.

Section Router.

Variable call : fid -> list value -> World -> outcome (value * World).

(** [pathState.info = Object.assign( pathState.info, updates )]: the object
    held by [info] is changed in place and then assigned, through the
    proxy, to the property it is held by; the value of the assignment is
    that object. *)
Definition assignInfo (pathState : value) (updates : list (string * value))
    (w : World) : outcome (value * World) :=
  match infoOf pathState w with
  | Some (VObject c i) =>
      let w1 :=
        setProps
          (<[i := foldl (fun l '(k, v) => assocSet k v l) (propsOf i w) updates]>
             (props w)) w in
      '(_, w2) ← proxySet call pathState "info" (VObject c i) w1;
      mret (VObject c i, w2)
  | Some VUndefined | Some VNull | None =>
      Throw (TypeError "Cannot convert undefined or null to object")
  | Some _ => Unmodelled
  end.

(** [setRootPath( rootPath )], with [window.location.pathname] made
    explicit. *)
Definition setRootPath (pathState : value) (pathname rootPath : string)
    (w : World) : outcome (value * World) :=
  assignInfo pathState
    [("rootPath", VString (ensureSlash rootPath));
     ("currentRoute", VString pathname)] w.

(** The listener of [popstate]. *)
Definition onPopstate (pathState : value) (pathname : string) (w : World)
    : outcome (value * World) :=
  match rootPathOf pathState w with
  | Some rootPath =>
      assignInfo pathState
        [("currentRoute", VString (currentRouteOf rootPath pathname))] w
  | None => Unmodelled
  end.

End Router.

(** ** Navigation *)

(** What the module does to the browser beside the page: the entries it
    pushes on the history, each a title and a URL, and the elements it
    scrolls into view. *)
Record Browser : Type := mkBrowser {
  page : World;
  pushed : list (string * string);
  scrolledIntoView : list ref
}.

(** [s.split( '#' )[ 1 ]]: what stands between the first [#] and the next;
    [None] when there is no [#] (and [indexOf] gives -1). *)
Fixpoint uptoHash (s : string) : string :=
  match s with
  | EmptyString => EmptyString
  | String c s' => if Ascii.eqb c "#" then EmptyString else String c (uptoHash s')
  end.

Fixpoint afterHash (s : string) : option string :=
  match s with
  | EmptyString => None
  | String c s' => if Ascii.eqb c "#" then Some (uptoHash s') else afterHash s'
  end.

Section Navigation.

Variable call : fid -> list value -> World -> outcome (value * World).

(** [window.location.origin], [document.getElementById] and
    [decodeURIComponent]. *)
Variable origin : string.
Variable getElementById : string -> World -> option ref.
Variable decodeURIComponent : string -> outcome string.

(** [goTo( route )] *)
Definition goTo (pathState : value) (route : string) (b : Browser)
    : outcome Browser :=
  match rootPathOf pathState (page b) with
  | Some rootPath =>
      let newPath := origin ++ rootPath ++ ensureSlash route in
      let entries := (pushed b ++ [(route, newPath)])%list in
      '(_, w1) ← assignInfo call pathState [("currentRoute", VString route)]
                   (page b);
      match afterHash newPath with
      | Some fragment =>
          id ← decodeURIComponent fragment;
          match getElementById id w1 with
          | Some el =>
              Return (mkBrowser w1 entries (scrolledIntoView b ++ [el])%list)
          | None => Return (mkBrowser w1 entries (scrolledIntoView b))
          end
      | None => Return (mkBrowser w1 entries (scrolledIntoView b))
      end
  | None => Unmodelled
  end.

End Navigation.

(** ** A small page to run the module on *)

(** Four user functions: a render function producing the text [hello], a
    patch function that returns the node it is given, a render function
    that builds a fresh [div], and a function returning a number. *)
Definition demoCall (f : fid) (args : list value) (w : World)
    : outcome (value * World) :=
  match f with
  | 0 => Return (VString "hello", w)
  | 1 => Return (nth 0 args VUndefined, w)
  | 2 => let '(r, w') := createElement "div" [] w in Return (VNode r, w')
  | 3 => Return (VNumber 7, w)
  | _ => Return (VUndefined, w)
  end.

(** A plain object [{ a: 1 }] at address 100. *)
Definition demoObject : value := VObject (Some "Object") 100.
Definition demoWorld : World :=
  setNextRef 101 (setProps {[ 100 := [("a", VNumber 1)] ]} emptyWorld).

Definition demoToString (v : value) : string := "[object Object]".

(** The state made of [demoObject], and a binding of it to the render
    function 0. *)
Definition demoState : outcome (value * World) := fnstate demoObject demoWorld.

Definition demoBinding : outcome (accessor * World) :=
  '(p, w) ← demoState;
  fnbind demoToString (OneState p) (VFunction 0) VUndefined w.

(** A handle on a marker, registered with the state at address 100. *)
Definition demoHandle : ref * ref * World :=
  let '(m, w1) := marker demoWorld in
  let '(el, w2) := newHandle m w1 in
  (m, el, w2).

(** Two bindings of the demo state, to the render functions 0 and 2, and
    the page after both were made. *)
Definition demoTwoBindings : outcome (accessor * World) :=
  '(p, w) ← demoState;
  '(_, w1) ← fnbind demoToString (OneState p) (VFunction 0) VUndefined w;
  fnbind demoToString (OneState p) (VFunction 2) VUndefined w1.

Definition demoBound : World :=
  match demoTwoBindings with
  | Return (_, w) => w
  | _ => demoWorld
  end.

Definition demoObservers : list observer :=
  [Observer 102 (VFunction 0) VUndefined; Observer 104 (VFunction 2) VUndefined].

(** The page after the first demo binding, with a [div] at address 103
    under which the marker of the binding is mounted. *)
Definition demoMounted : World :=
  match demoBinding with
  | Return (_, w) =>
      let '(root, w1) := createElement "div" [] w in
      match append root 101 w1 with
      | Return w2 => w2
      | _ => w1
      end
  | _ => demoWorld
  end.

(** A switch container at address 200 with a stale child, and three
    routes with the paths [/x], [/:id] and [/x] again. *)
Definition demoSwitchWorld : World :=
  setNextRef 205
    (setDom
       (<[200 := Node "div" "" [] VUndefined None [201]]>
        (<[201 := Node "div" "" [] VUndefined (Some 200) []]>
         (<[202 := Node "div" "" [("path", "/x")] VUndefined None []]>
          (<[203 := Node "div" "" [("path", "/:id")] VUndefined None []]>
           (<[204 := Node "div" "" [("path", "/x")] VUndefined None []]> ∅)))))
       emptyWorld).

(** A first binding, an assignment, a second binding and a second
    assignment on the demo state. *)
Definition demoStaleSlot : outcome (value * World) :=
  '(p, w) ← demoState;
  '(_, w1) ← fnbind demoToString (OneState p) (VFunction 0) VUndefined w;
  '(_, w2) ← proxySet demoCall p "a" (VNumber 2) w1;
  '(_, w3) ← fnbind demoToString (OneState p) (VFunction 0) VUndefined w2;
  proxySet demoCall p "a" (VNumber 3) w3.

(** The page of [demoStaleSlot] before its second assignment. *)
Definition demoBeforeSecondSet : World :=
  match ('(p, w) ← demoState;
         '(_, w1) ← fnbind demoToString (OneState p) (VFunction 0) VUndefined w;
         '(_, w2) ← proxySet demoCall p "a" (VNumber 2) w1;
         fnbind demoToString (OneState p) (VFunction 0) VUndefined w2) with
  | Return (_, w3) => w3
  | _ => demoWorld
  end.

(** Two attribute objects, [{ path: "/x", id: "a" }] and [{ path: "/y" }]. *)
Definition demoAttrsWorld : World :=
  setNextRef 112
    (setProps
       (<[110 := [("path", VString "/x"); ("id", VString "a")]]>
        (<[111 := [("path", VString "/y")]]> ∅))
       emptyWorld).

Definition demoChildren : list value :=
  [VObject (Some "Object") 110; VString "child";
   VObject (Some "Object") 111; VNull].

(** The route state [{ info: { rootPath: "/app", currentRoute: "/" } }] at
    the addresses 300 and 301, with one binding to the render function 0. *)
Definition demoPathState : value := VObject (Some "Object") 300.

Definition demoRouterWorld : World :=
  match ('(p, w) ← fnstate demoPathState
                     (setNextRef 302
                        (setProps
                           (<[300 := [("info", VObject (Some "Object") 301)]]>
                            (<[301 := [("rootPath", VString "/app");
                                       ("currentRoute", VString "/")]]> ∅))
                           emptyWorld));
         fnbind demoToString (OneState p) (VFunction 0) VUndefined w) with
  | Return (_, w) => w
  | _ => demoWorld
  end.

Definition demoRouterObservers : list observer :=
  [Observer 303 (VFunction 0) VUndefined].

(** ** Vocabulary of the properties *)

(** What the router documents of a normalised path: the bare root, or one
    leading slash and no trailing one. *)
Definition normalised (r : string) : Prop :=
  r = "/" \/
  (JsString.startsWith "/" r = true /\
   JsString.startsWith "//" r = false /\
   JsString.endsWith "/" r = false).

(** A state that has no [hasOwnProperty] to ask. *)
Definition opaqueState (st : value) : Prop :=
  st = VUndefined \/ st = VNull \/ exists r, st = VObject None r.

(** What a step that only touches the nodes and the plain objects leaves
    alone; addresses are never given back. *)
Definition engineFrame (w w' : World) : Prop :=
  fnInfo w' = fnInfo w /\ current w' = current w /\
  observers w' = observers w /\ lastId w' = lastId w /\
  notified w' = notified w /\ nextRef w <= nextRef w'.

(** The handles of a list of observers. *)
Definition handlesOf (obs : list observer) : list ref := obsEl <$> obs.

(** The condition under which the deletion of a slot by an observer of the
    state [st] touches none of its [obs]: identity numbers below the number
    of observers belong to handles only; handles track nodes, not handles;
    the handles were allocated. *)
Definition slotsSafe (st : ref) (obs : list observer) (w : World) : Prop :=
  length obs <= lastId w /\
  (forall r id, fnInfo w !! r = Some id -> id < length obs ->
                In r (handlesOf obs)) /\
  (forall h c, In h (handlesOf obs) -> current w !! h = Some c ->
               ~ In c (handlesOf obs)) /\
  (forall h, In h (handlesOf obs) -> h < nextRef w) /\
  observersOf st w = Some <$> obs.

(** [slotsSafe], as a check that can be run. *)
Definition slotsSafeb (st : ref) (obs : list observer) (w : World) : bool :=
  bool_decide (length obs <= lastId w)
  && bool_decide (map_Forall (fun r id => id < length obs -> r ∈ handlesOf obs)
                    (fnInfo w))
  && bool_decide (map_Forall (fun h c => h ∈ handlesOf obs -> c ∉ handlesOf obs)
                    (current w))
  && bool_decide (Forall (fun h => h < nextRef w) (handlesOf obs))
  && bool_decide (observersOf st w = Some <$> obs).

(** Identity numbers are handed out once: no two objects share one, and
    the counter is above all of them. *)
Definition tagsUnique (w : World) : Prop :=
  (forall r1 r2 id,
     fnInfo w !! r1 = Some id -> fnInfo w !! r2 = Some id -> r1 = r2) /\
  (forall r id, fnInfo w !! r = Some id -> id < lastId w).

(** [tagsUnique], as a check that can be run. *)
Definition tagsUniqueb (w : World) : bool :=
  bool_decide (map_Forall (fun r1 id1 =>
                 map_Forall (fun r2 id2 => id1 = id2 -> r1 = r2) (fnInfo w))
                 (fnInfo w))
  && bool_decide (map_Forall (fun _ id => id < lastId w) (fnInfo w)).

(** The properties of a child that counts as an attribute object. *)
Definition attrsOf (child : value) (w : World)
    : option (list (string * value)) :=
  match child with
  | VNull => Some []
  | VObject (Some c) r =>
      if String.eqb c "Array" then None else Some (propsOf r w)
  | _ => None
  end.

(** The value a key has in the last of the objects that have it. *)
Definition lastOf (k : string) (objects : list (list (string * value)))
    : option value :=
  foldl (fun found l => match assoc k l with
                        | Some v => Some v
                        | None => found
                        end) None objects.

(** The characters a pattern takes literally, line terminators apart. *)
Definition plainChar (c : ascii) : bool :=
  negb (existsb (Ascii.eqb c) ["("; ")"; "|"; "["; "$"; "?"]%char)
  && negb (unsupportedChar c) && negb (lineTerminator c).

Fixpoint plain (s : string) : bool :=
  match s with
  | EmptyString => true
  | String c s' => plainChar c && plain s'
  end.

(** The expression that matches the characters of [s], then [r]. *)
Fixpoint lits (s : string) (r : regex) : regex :=
  match s with
  | EmptyString => r
  | String c s' => RSeq (RChar c) (lits s' r)
  end.

(** The group that ends a route pattern: a separator or the end. *)
Definition terminator : regex :=
  RAlt (RSeq (RClass ["/"; "?"; "#"]%char) REps) (RSeq REnd REps).

(** The loop over the terms of one alternative inside [parseAlt], by
    name. *)
Definition parseSeqOf (fuel' : nat) : nat -> string -> option (regex * string) :=
  fix parseSeq (n : nat) (s : string) : option (regex * string) :=
    match n with
    | O => None
    | S n' =>
        match s with
        | EmptyString => Some (REps, s)
        | String c s' =>
            if Ascii.eqb c ")" || Ascii.eqb c "|" then Some (REps, s)
            else
              let atom :=
                if Ascii.eqb c "(" then
                  match parseAlt fuel' s' with
                  | Some (r, String ")" rest) => Some (r, rest)
                  | _ => None
                  end
                else if Ascii.eqb c "[" then parseClass s' []
                else if Ascii.eqb c "$" then Some (REnd, s')
                else if Ascii.eqb c "?" || unsupportedChar c then None
                else Some (RChar c, s') in
              match atom with
              | None => None
              | Some (r, rest) =>
                  let '(r, rest) := parseQuant r rest in
                  match parseSeq n' rest with
                  | Some (r', rest') => Some (RSeq r r', rest')
                  | None => None
                  end
              end
        end
    end.

(** A rest of a pattern that a quantifier opens. *)
Definition startsWithQuestion (s : string) : bool :=
  match s with
  | String "?" _ => true
  | _ => false
  end.

(** Where a path may go on below a route. *)
Definition continues (tail : string) : bool :=
  match tail with
  | EmptyString => true
  | String c _ => existsb (Ascii.eqb c) ["/"; "?"; "#"]%char
  end.

(** What the results on notification ask of the user functions: a node
    they return is none of the handles of [obs], unless it was passed in,
    and they give no address back. *)
Definition keepsHandles
    (call : fid -> list value -> World -> outcome (value * World))
    (obs : list observer) : Prop :=
  (forall f args w r w',
     (forall h, In h (handlesOf obs) -> h < nextRef w) ->
     (forall r', In (VNode r') args -> ~ In r' (handlesOf obs)) ->
     call f args w = Return (VNode r, w') -> ~ In r (handlesOf obs)) /\
  (forall f args w v w',
     call f args w = Return (v, w') -> nextRef w <= nextRef w').

(** A route state whose [info] is the object [i], observed by [obs]. *)
Definition routeState (pathState : value) (ps : ref) (c : option string)
    (i : ref) (obs : list observer) (w : World) : Prop :=
  refOf pathState = Some ps /\ ~ In ps (handlesOf obs) /\
  infoOf pathState w = Some (VObject c i) /\ i <> ps /\
  slotsSafe ps obs w.

(** The trace of one round of notification: the slots in order, each with
    the same argument. *)
Definition roundFrom (st : ref) (arg : value) (i n : nat)
    : list (ref * nat * value) :=
  (fun j => (st, j, arg)) <$> seq i n.

(** * Properties *)

(** ** Path normalisation *)

Lemma substring_dropLast (s : string) :
  String.substring 0 (String.length s - 1) s = JsString.dropLast s.
Proof.
  induction s as [|c s IH]; [reflexivity|].
  destruct s as [|d s]; [reflexivity|].
  cbn [String.length Nat.sub] in *. rewrite Nat.sub_0_r in IH.
  cbn [String.substring JsString.dropLast]. cbn [JsString.dropLast] in IH.
  now rewrite <- IH.
Qed.

Lemma slice_dropLast (s : string) :
  JsString.slice 0 (-1) s = JsString.dropLast s.
Proof.
  unfold JsString.slice, JsString.clampIndex.
  change (0 <? 0)%Z with false. change (-1 <? 0)%Z with true. cbv iota.
  rewrite <- substring_dropLast. f_equal; lia.
Qed.

Lemma endsWith_cons (p : string) (c : ascii) (s : string) :
  JsString.endsWith p (String c s)
  = String.eqb p (String c s) || JsString.endsWith p s.
Proof. cbn [JsString.endsWith]. now destruct (String.eqb p (String c s)). Qed.

Section Suffix.

#[local] Arguments Ascii.eqb : simpl never.

Lemma endsWith_slash_dropLast (s : string) :
  JsString.endsWith "/" s = true ->
  JsString.endsWith "/" (JsString.dropLast s) = JsString.endsWith "//" s.
Proof.
  induction s as [|c s IH]; [discriminate|].
  destruct s as [|d s].
  - intros _. cbn. now destruct (Ascii.eqb "/" c).
  - rewrite (endsWith_cons "/" c). cbn [String.eqb].
    replace (if Ascii.eqb "/" c then false else false) with false by now destruct (Ascii.eqb _ _).
    cbn [orb]. intros H. specialize (IH H).
    change (JsString.dropLast (String c (String d s)))
      with (String c (JsString.dropLast (String d s))).
    rewrite (endsWith_cons "/" c), (endsWith_cons "//" c), IH. f_equal.
    destruct s as [|e s].
    + cbn in H. destruct (Ascii.eqb_spec "/" d) as [<-|]; [|discriminate].
      cbn. rewrite Ascii.eqb_refl. now destruct (Ascii.eqb "/" c).
    + change (JsString.dropLast (String d (String e s)))
        with (String d (JsString.dropLast (String e s))).
      cbn. now destruct (Ascii.eqb "/" c), (Ascii.eqb "/" d).
Qed.

End Suffix.

Lemma prefix_cons (a b : ascii) (p s : string) :
  String.prefix (String a p) (String b s)
  = if ascii_dec a b then String.prefix p s else false.
Proof. reflexivity. Qed.

Lemma prefix_empty (s : string) : String.prefix "" s = true.
Proof. now destruct s. Qed.

Lemma startsWith_slash (s : string) :
  JsString.startsWith "/" s = true <-> exists s', s = String "/" s'.
Proof.
  unfold JsString.startsWith. destruct s as [|c s].
  - split; [discriminate|intros [? ?]; discriminate].
  - rewrite prefix_cons, prefix_empty.
    destruct (ascii_dec "/" c) as [<-|n].
    + split; eauto.
    + split; [discriminate|]. intros [s' [= ? ?]]. congruence.
Qed.

Lemma startsWith_slash2 (c : ascii) (s : string) :
  JsString.startsWith "//" (String "/" (String c s)) = false <-> c <> "/"%char.
Proof.
  unfold JsString.startsWith. rewrite !prefix_cons, prefix_empty.
  destruct (ascii_dec "/" "/") as [_|n]; [|congruence].
  destruct (ascii_dec "/" c) as [<-|n]; split; congruence.
Qed.

Lemma dropLast_cons2 (c d : ascii) (s : string) :
  JsString.dropLast (String c (String d s))
  = String c (JsString.dropLast (String d s)).
Proof. reflexivity. Qed.

Lemma ensureSlash_facts (s : string) :
  s <> "" -> s <> "/" ->
  JsString.startsWith "//" s = false ->
  JsString.endsWith "//" s = false ->
  JsString.startsWith "/" (ensureSlash s) = true /\
  JsString.startsWith "//" (ensureSlash s) = false /\
  JsString.endsWith "/" (ensureSlash s) = false.
Proof.
  intros Hne Hroot Hstart Hend. unfold ensureSlash.
  destruct (JsString.startsWith "/" s) eqn:Hs.
  - apply startsWith_slash in Hs as [s' ->].
    destruct s' as [|d s']; [congruence|].
    apply startsWith_slash2 in Hstart.
    destruct (JsString.endsWith "/" (String "/" (String d s'))) eqn:He.
    + rewrite slice_dropLast. split; [|split].
      * rewrite dropLast_cons2. apply startsWith_slash. eauto.
      * rewrite dropLast_cons2. destruct s' as [|e s'].
        -- reflexivity.
        -- rewrite dropLast_cons2. now apply startsWith_slash2.
      * now rewrite endsWith_slash_dropLast.
    + split; [apply startsWith_slash; eauto|].
      split; [now apply startsWith_slash2|assumption].
  - destruct s as [|d s]; [congruence|].
    assert (Hd : d <> "/"%char).
    { intros ->. unfold JsString.startsWith in Hs.
      rewrite prefix_cons, prefix_empty in Hs.
      destruct (ascii_dec "/" "/"); congruence. }
    change ("/" ++ String d s) with (String "/" (String d s)).
    destruct (JsString.endsWith "/" (String "/" (String d s))) eqn:He.
    + rewrite slice_dropLast. split; [|split].
      * rewrite dropLast_cons2. apply startsWith_slash. eauto.
      * rewrite dropLast_cons2. destruct s as [|e s].
        -- reflexivity.
        -- rewrite dropLast_cons2. now apply startsWith_slash2.
      * rewrite endsWith_slash_dropLast by assumption.
        rewrite endsWith_cons, Hend. cbn [String.eqb].
        destruct (Ascii.eqb "/" "/"); [|reflexivity].
        destruct (Ascii.eqb_spec "/" d); [congruence|reflexivity].
    + split; [apply startsWith_slash; eauto|].
      split; [now apply startsWith_slash2|assumption].
Qed.

(** C8, as stated, fails: the bare root is not preserved but normalised to
    the empty string, a doubled leading slash is kept, and only one of two
    trailing slashes is removed. *)
Lemma ensureSlash_not_normalised :
  ensureSlash "/" = "" /\
  ~ normalised (ensureSlash "/") /\
  ~ normalised (ensureSlash "//a") /\
  ~ normalised (ensureSlash "a//").
Proof.
  split; [reflexivity|].
  repeat split; intros [H|(H1 & H2 & H3)]; vm_compute in *; discriminate.
Qed.

(** C8, amended: the bare root and the empty string are normalised to the
    empty string; every other input without a doubled slash at its start or
    at its end is normalised to a string that starts with exactly one slash
    and does not end with one. *)
Theorem ensureSlash_normalises :
  ensureSlash "/" = "" /\ ensureSlash "" = "" /\
  forall s : string,
    s <> "" -> s <> "/" ->
    JsString.startsWith "//" s = false ->
    JsString.endsWith "//" s = false ->
    JsString.startsWith "/" (ensureSlash s) = true /\
    JsString.startsWith "//" (ensureSlash s) = false /\
    JsString.endsWith "/" (ensureSlash s) = false.
Proof.
  split; [reflexivity|]. split; [reflexivity|]. apply ensureSlash_facts.
Qed.

Lemma ensureSlash_normalises_witness :
  JsString.startsWith "/" (ensureSlash "a/b/") = true /\
  JsString.startsWith "//" (ensureSlash "a/b/") = false /\
  JsString.endsWith "/" (ensureSlash "a/b/") = false.
Proof.
  apply (proj2 (proj2 ensureSlash_normalises) "a/b/");
    [discriminate|discriminate|reflexivity|reflexivity].
Defined.

(** ** The display predicate *)

(** C6: with the root path taken from [/], the relative route [/a] is
    displayed at the browser path [/ba], which is neither [/a] nor below
    [/a/]: the pattern is searched for anywhere in the path. *)
Theorem shouldDisplayRoute_matches_anywhere :
  shouldDisplayRoute (ensureSlash "/") "/ba" "/a" false = Some true /\
  "/ba" <> "/a" /\
  JsString.startsWith "/a/" "/ba" = false.
Proof. split; [reflexivity|]. split; [discriminate|reflexivity]. Qed.

(** The part of C6 that holds: the route [/a] is displayed at [/a] and at
    every path below [/a/]. *)
Lemma shouldDisplayRoute_displays_below (rest : string) :
  shouldDisplayRoute (ensureSlash "/") "/a" "/a" false = Some true /\
  shouldDisplayRoute (ensureSlash "/") ("/a/" ++ rest) "/a" false = Some true.
Proof. split; reflexivity. Qed.

(** ** The renderer *)

Lemma InvalidElementType_not_MissingChild (name : string) :
  InvalidElementType name <> MissingChild.
Proof. unfold InvalidElementType, MissingChild. cbn. discriminate. Qed.




(** ** What the module throws *)

Lemma isfnstate_error (st : value) (w : World) (t : thrown) :
  isfnstate st w = Throw t -> isErrorInstance t = true /\ opaqueState st.
Proof.
  unfold isfnstate, opaqueState.
  destruct st as [| |b|n| |s|f|r|[c|] r]; cbn;
    try discriminate; intros [= <-]; split; eauto.
Qed.

Lemma bindStates_error (toString : value -> string) (states : list value)
    (el : ref) (element update : value) (w : World) (t : thrown) :
  bindStates toString states el element update w = Throw t ->
  isErrorInstance t = true ->
  exists st, In st states /\ opaqueState st.
Proof.
  revert w. induction states as [|st states IH]; intros w; cbn; [discriminate|].
  destruct (isfnstate st w) as [[]| |] eqn:Hst; cbn; try discriminate.
  - destruct (refOf st); [|discriminate].
    intros H Ht. destruct (IH _ H Ht) as (st' & Hin & Hop). eauto.
  - intros [= <-]. discriminate.
  - intros [= <-] _. apply isfnstate_error in Hst as [_ Hop]. eauto.
Qed.




(** ** Observer registration *)

Lemma tagElement_tagged (el : ref) (w : World) :
  isTagged el (tagElement el w) = true.
Proof.
  unfold isTagged, tagElement. destruct (fnInfo w !! el) eqn:E; cbn.
  - now rewrite E.
  - now rewrite lookup_insert_eq.
Qed.

Lemma tagElement_other (el r : ref) (w : World) :
  r <> el -> getElId r (tagElement el w) = getElId r w.
Proof.
  intros Hr. unfold getElId, tagElement. destruct (fnInfo w !! el); cbn;
    [reflexivity|]. now rewrite lookup_insert_ne.
Qed.

(** C5, as stated, fails: [addObserver] tags the handle it is given, and the
    marker the handle tracks is left without a tag. *)
Lemma addObserver_leaves_current_untagged :
  let '(m, el, w) := demoHandle in
  let w' := addObserver 100 el (VFunction 0) VUndefined w in
  current w' !! el = Some m /\ isTagged m w' = false /\ isTagged el w' = true.
Proof. vm_compute. repeat split. Qed.

(** C5, amended: [addObserver] ensures that the handle object itself carries
    an identity tag before the observer is registered, at the end of the
    state's list; the tag of no other object changes, that of the node the
    handle tracks included, and the handle tracks the same node as before. *)
Theorem addObserver_tags_handle (st el : ref) (element update : value)
    (w : World) :
  let w' := addObserver st el element update w in
  isTagged el w' = true /\
  observersOf st w'
    = (observersOf st (tagElement el w) ++ [Some (Observer el element update)])%list /\
  observersOf st (tagElement el w) = observersOf st w /\
  current w' = current w /\
  (forall r, r <> el -> getElId r w' = getElId r w).
Proof.
  cbn. unfold addObserver. split; [|split; [|split; [|split]]].
  - unfold isTagged. cbn. exact (tagElement_tagged el w).
  - unfold observersOf at 1. cbn. now rewrite lookup_insert_eq.
  - unfold observersOf, tagElement. now destruct (fnInfo w !! el).
  - unfold tagElement. now destruct (fnInfo w !! el).
  - intros r Hr. unfold getElId. cbn. exact (tagElement_other el r w Hr).
Qed.

Lemma addObserver_tags_handle_witness :
  let '(m, el, w) := demoHandle in
  getElId m (addObserver 100 el (VFunction 0) VUndefined w) = getElId m w.
Proof.
  cbn. apply (addObserver_tags_handle 100 102 (VFunction 0) VUndefined). lia.
Defined.

(** ** The accessor of a binding *)

(** C4, as stated, fails: the accessor of a binding of a render function
    that returns a string builds a new text node at every call. *)
Lemma accessor_renders_anew :
  exists a w n1 w1 n2 w2,
    demoBinding = Return (a, w) /\
    callAccessor demoCall a w = Return (n1, w1) /\
    callAccessor demoCall a w1 = Return (n2, w2) /\
    n1 <> n2.
Proof.
  unfold demoBinding, demoState. cbn.
  do 6 eexists. split; [reflexivity|]. cbn.
  split; [reflexivity|]. cbn. split; [reflexivity|]. lia.
Qed.

(** C4, amended: the accessor of a binding of a node returns that node at
    every call, so two calls return the same node whatever happens between
    them.  The accessor of a binding of a render function calls the function
    and renders its result at every call: it returns the node the function
    returns, and two calls return the same node when the function returns
    the same node both times. *)
Theorem accessor_returns_bound_node
    (call : fid -> list value -> World -> outcome (value * World))
    (a : accessor) :
  (forall r w w', accElement a = VNode r ->
     exists w1 w2,
       callAccessor call a w = Return (r, w1) /\
       callAccessor call a w' = Return (r, w2)) /\
  (forall f r w w1, accElement a = VFunction f ->
     call f [accState a] w = Return (VNode r, w1) ->
     exists w2, callAccessor call a w = Return (r, w2) /\
                current w2 !! accEl a = Some r).
Proof.
  split.
  - intros r w w' Ha. unfold callAccessor. rewrite Ha. cbn. eauto.
  - intros f r w w1 Ha Hcall. unfold callAccessor. rewrite Ha. cbn.
    rewrite Hcall. cbn. eexists. split; [reflexivity|].
    cbn. now rewrite lookup_insert_eq.
Qed.

Lemma accessor_returns_bound_node_witness :
  exists w1 w2,
    callAccessor demoCall (Accessor 102 (VNode 101) demoObject) demoWorld
      = Return (101, w1) /\
    callAccessor demoCall (Accessor 102 (VNode 101) demoObject) w1
      = Return (101, w2).
Proof.
  destruct (proj1 (accessor_returns_bound_node demoCall
                     (Accessor 102 (VNode 101) demoObject))
              101 demoWorld demoWorld eq_refl) as (w1 & _ & H1 & _).
  exists w1.
  destruct (proj1 (accessor_returns_bound_node demoCall
                     (Accessor 102 (VNode 101) demoObject))
              101 w1 w1 eq_refl) as (w2 & _ & H2 & _).
  exists w2. split; assumption.
Defined.

(** ** Reset *)

Lemma setProps_same (w : World) : setProps (props w) w = w.
Proof. now destruct w. Qed.

Lemma assocSet_same {A : Type} (k : string) (a : A) (l : list (string * A)) :
  assoc k l = Some a -> assocSet k a l = l.
Proof.
  induction l as [|[k' a'] l IH]; cbn; [discriminate|].
  destruct (String.eqb_spec k k') as [->|Hk].
  - now intros [= ->].
  - intros H. now rewrite IH.
Qed.

Lemma propsOf_lookup (st : ref) (w : World) (k : string) (v : value) :
  assoc k (propsOf st w) = Some v -> props w !! st = Some (propsOf st w).
Proof.
  unfold propsOf. destruct (props w !! st); cbn; [reflexivity|discriminate].
Qed.

(** Assigning to a state, through its proxy, the value a property has
    already, while nobody observes, changes nothing. *)
Lemma notify_set_same
    (call : fid -> list value -> World -> outcome (value * World))
    (initialState : value) (st : ref) (k : string) (v : value) (w : World) :
  refOf initialState = Some st ->
  observersOf st w = [] ->
  k <> fnStateInfo ->
  assoc k (propsOf st w) = Some v ->
  notify call st set [initialState; VString k; v; initialState] w
  = Return (VBool true, w).
Proof.
  intros Hr Ho Hk Hv. unfold notify, Reflect. rewrite Hr.
  destruct (String.eqb_spec k fnStateInfo); [contradiction|]. cbn.
  rewrite (assocSet_same _ _ _ Hv).
  rewrite (insert_id _ _ _ (propsOf_lookup _ _ _ _ Hv)), setProps_same.
  now rewrite Ho.
Qed.

Lemma assignKeys_same
    (call : fid -> list value -> World -> outcome (value * World))
    (initialState : value) (st : ref) (keys : list string) (w : World) :
  refOf initialState = Some st ->
  observersOf st w = [] ->
  ~ In fnStateInfo keys ->
  assignKeys call initialState st keys w = Return w.
Proof.
  intros Hr Ho. induction keys as [|k keys IH]; cbn [assignKeys In];
    [reflexivity|].
  intros Hin. destruct (assoc k (propsOf st w)) as [v|] eqn:Hv.
  - rewrite (notify_set_same call initialState st k v w); auto.
  - auto.
Qed.

(** What [reset(true)] does, whatever was assigned before: the observers
    are gone and the properties keep the values they have. *)
Lemma reset_keeps_props
    (call : fid -> list value -> World -> outcome (value * World))
    (initialState : value) (st : ref) (w : World) :
  refOf initialState = Some st ->
  ~ In fnStateInfo (fst <$> propsOf st w) ->
  reset call initialState (VBool true) w
  = Return (setObservers (<[st := []]> (observers w)) w).
Proof.
  intros Hr Hk. unfold reset. rewrite Hr. cbn [truthy].
  apply assignKeys_same; auto.
  unfold observersOf. cbn. now rewrite lookup_insert_eq.
Qed.

(** After a reset nobody is notified of an assignment. *)
Lemma proxySet_after_reset
    (call : fid -> list value -> World -> outcome (value * World))
    (initialState : value) (st : ref) (k : string) (v : value) (w : World) :
  refOf initialState = Some st ->
  observersOf st w = [] ->
  exists r w', proxySet call initialState k v w = Return (r, w') /\
               notified w' = notified w.
Proof.
  intros Hr Ho. unfold proxySet, notify, Reflect. rewrite Hr. cbn.
  destruct (String.eqb k fnStateInfo && _); cbn.
  - rewrite Ho. cbn. eauto.
  - unfold observersOf in *. cbn. rewrite Ho. cbn. eauto.
Qed.

(** C2: on the state made of [{ a: 1 }], after [a] is set to 2,
    [resetState( state, true )] empties the list of observers and fires no
    notification, yet leaves [a] at 2: the backing object is the initial
    mapping itself, so [Object.assign( p, initialState )] copies the
    object onto itself. *)
Theorem resetState_does_not_restore :
  exists p w1 r w2 w3,
    demoState = Return (p, w1) /\
    propsOf 100 w1 = [("a", VNumber 1)] /\
    proxySet demoCall p "a" (VNumber 2) w1 = Return (r, w2) /\
    resetState demoCall p (VBool true) w2 = Return w3 /\
    observersOf 100 w3 = [] /\
    notified w3 = notified w2 /\
    propsOf 100 w3 = [("a", VNumber 2)].
Proof.
  unfold demoState. cbn. do 5 eexists.
  split; [reflexivity|]. split; [reflexivity|].
  split; [reflexivity|]. split; [reflexivity|].
  repeat split.
Qed.

(** ** Frames of the steps of an observer *)

Lemma bind_Return {A B : Type} (m : outcome A) (k : A -> outcome B) (b : B) :
  m ≫= k = Return b -> exists a, m = Return a /\ k a = Return b.
Proof. destruct m; cbn; try discriminate. eauto. Qed.

Lemma engineFrame_refl (w : World) : engineFrame w w.
Proof. unfold engineFrame. repeat split; auto. Qed.

Lemma engineFrame_trans (w1 w2 w3 : World) :
  engineFrame w1 w2 -> engineFrame w2 w3 -> engineFrame w1 w3.
Proof.
  unfold engineFrame. intros (a1 & b1 & c1 & d1 & e1 & f1)
    (a2 & b2 & c2 & d2 & e2 & f2).
  repeat split; try congruence. lia.
Qed.

Lemma setDom_frame (d : gmap ref node) (w : World) :
  engineFrame w (setDom d w).
Proof. unfold engineFrame. cbn. repeat split; auto. Qed.

Lemma replaceWith_frame (old new : ref) (w w' : World) :
  replaceWith old new w = Return w' -> engineFrame w w'.
Proof.
  unfold replaceWith. destruct (Tree.replaceWith old new (dom w)); cbn;
    try discriminate. intros [= <-]. apply setDom_frame.
Qed.

Lemma alloc_frame (n : node) (w : World) : engineFrame w (alloc n w).2.
Proof. unfold engineFrame. cbn. repeat split; auto. Qed.

Section Frames.

Variable call : fid -> list value -> World -> outcome (value * World).
Variable obs : list observer.
Let handles := handlesOf obs.

(** User functions return nodes, not the handles, which they never see, and
    do not give addresses back. *)
Hypothesis call_not_handle : forall f args w r w',
  (forall h, In h handles -> h < nextRef w) ->
  (forall r', In (VNode r') args -> ~ In r' handles) ->
  call f args w = Return (VNode r, w') -> ~ In r handles.
Hypothesis call_nextRef : forall f args w v w',
  call f args w = Return (v, w') -> nextRef w <= nextRef w'.

Lemma invoke_frame (f : value) (args : list value) (w : World) (v : value)
    (w' : World) :
  (forall h, In h handles -> h < nextRef w) ->
  (forall r', In (VNode r') args -> ~ In r' handles) ->
  invoke call f args w = Return (v, w') ->
  engineFrame w w' /\ (forall r, v = VNode r -> ~ In r handles).
Proof.
  intros Hh Hargs. unfold invoke. destruct f; try discriminate.
  destruct (call f args w) as [[v0 w0]| |] eqn:E; cbn; try discriminate.
  intros [= <- <-]. split.
  - unfold engineFrame. cbn. repeat split; eauto.
  - intros r ->. eauto.
Qed.

#[local] Arguments invoke : simpl never.

Lemma renderElement_frame (x : value) (w : World) (r : ref) (w' : World) :
  (forall r0, x = VNode r0 -> ~ In r0 handles) ->
  (forall h, In h handles -> h < nextRef w) ->
  renderElement call x w = Return (r, w') ->
  engineFrame w w' /\ ~ In r handles.
Proof.
  intros Hx Hh. unfold renderElement.
  destruct (negb (String.eqb (typeof x) "string") && negb (truthy x));
    [discriminate|].
  destruct x as [| |b|n| |s|f|r0|[c|] r0]; cbn; try discriminate.
  - unfold createTextNode, alloc. intros H; injection H as <- <-.
    split; [apply (alloc_frame _ w)|].
    intros Hin. apply Hh in Hin. lia.
  - destruct (invoke call (VFunction f) [] w) as [[v w1]| |] eqn:E;
      cbn; try discriminate.
    apply invoke_frame in E as [Hf Hv]; [|assumption|intros ? []].
    destruct v as [| |b|n| |s|g|r1|[c|] r1]; cbn; try discriminate.
    + unfold createTextNode, alloc. intros H; injection H as <- <-. split.
      * eapply engineFrame_trans; [exact Hf|apply (alloc_frame _ w1)].
      * intros Hin. apply Hh in Hin. destruct Hf as (_ & _ & _ & _ & _ & ?). lia.
    + intros [= <- <-]. split; [exact Hf|]. now apply Hv.
  - intros [= <- <-]. split; [apply engineFrame_refl|]. now apply Hx.
Qed.

Variable st : ref.

Lemma slotsSafe_frame (w w' : World) :
  engineFrame w w' -> slotsSafe st obs w -> slotsSafe st obs w'.
Proof.
  intros (Hf & Hc & Ho & Hl & _ & Hn) (S1 & S2 & S3 & S4 & S5).
  unfold slotsSafe, observersOf in *. rewrite Hf, Hc, Ho, Hl.
  repeat split; auto. intros h Hh. specialize (S4 h Hh). lia.
Qed.

Lemma slotsSafe_tag (new : ref) (w : World) :
  ~ In new handles -> slotsSafe st obs w -> slotsSafe st obs (tagElement new w).
Proof.
  intros Hnew (S1 & S2 & S3 & S4 & S5). unfold tagElement.
  destruct (fnInfo w !! new) eqn:E; [repeat split; auto|].
  unfold slotsSafe, observersOf in *. cbn. repeat split; auto.
  intros r id. destruct (decide (r = new)) as [->|Hr].
  - rewrite lookup_insert_eq. intros [= <-]. lia.
  - rewrite lookup_insert_ne by auto. apply S2.
Qed.

Lemma slotsSafe_deleteSlot (id : option nat) (w : World) :
  (forall i, id = Some i -> length obs <= i) ->
  slotsSafe st obs w -> slotsSafe st obs (deleteSlot st id w).
Proof.
  intros Hid (S1 & S2 & S3 & S4 & S5). destruct id as [i|]; cbn;
    [|repeat split; auto].
  unfold slotsSafe. repeat split; auto.
  unfold observersOf at 1. cbn. rewrite lookup_insert_eq. cbn.
  rewrite S5. apply list_insert_ge. rewrite length_fmap. auto.
Qed.

Lemma slotsSafe_setCurrent (h new : ref) (w : World) :
  ~ In new handles -> slotsSafe st obs w ->
  slotsSafe st obs (setCurrent (<[h := new]> (current w)) w).
Proof.
  intros Hnew (S1 & S2 & S3 & S4 & S5).
  unfold slotsSafe, observersOf in *. cbn. repeat split; auto.
  intros h' c Hh'. destruct (decide (h' = h)) as [->|Hne].
  - rewrite lookup_insert_eq. now intros [= <-].
  - rewrite lookup_insert_ne by auto. now apply S3.
Qed.

(** What an observer computes as the next node. *)
Lemma nextNode_frame (o : observer) (cur : ref) (state : value) (w : World)
    (newElement : value) (w1 : World) :
  (forall h, In h handles -> h < nextRef w) ->
  ~ In cur handles ->
  (forall r, state = VNode r -> ~ In r handles) ->
  nextNode call o cur state w = Return (newElement, w1) ->
  engineFrame w w1 /\ (forall r, newElement = VNode r -> ~ In r handles).
Proof.
  intros Hh Hcur Hstate. unfold nextNode. destruct (truthy (obsUpdate o)).
  - apply invoke_frame; auto.
    intros r' [[= <-]|[Hr|[]]]; auto.
  - intros H. apply bind_Return in H as ([x wa] & Hx & H).
    apply bind_Return in H as ([r wb] & Hr & H). injection H as <- <-.
    apply invoke_frame in Hx as [Hf Hv]; auto.
    + apply renderElement_frame in Hr as [Hf' Hr]; auto.
      * split; [eapply engineFrame_trans; eauto|]. now intros r0 [= <-].
      * intros h Hin. specialize (Hh h Hin).
        destruct Hf as (_ & _ & _ & _ & _ & ?). lia.
    + intros r' [Hr'|[]]; auto.
Qed.

#[local] Arguments renderElement : simpl never.
#[local] Arguments replaceWith : simpl never.
#[local] Arguments tagElement : simpl never.
#[local] Arguments deleteSlot : simpl never.

Lemma runObserver_safe (o : observer) (state : value) (w w' : World) :
  In o obs -> slotsSafe st obs w ->
  (forall r, state = VNode r -> ~ In r handles) ->
  runObserver call st o state w = Return w' ->
  slotsSafe st obs w' /\ notified w' = notified w.
Proof.
  intros Ho Hs Hstate. unfold runObserver.
  assert (Hh : In (obsEl o) handles) by (apply in_map; exact Ho).
  destruct (current w !! obsEl o) as [cur|] eqn:Hcur; [|discriminate].
  intros H. apply bind_Return in H as ([newElement w1] & Hnext & H).
  apply nextNode_frame in Hnext as [Hf Hnew];
    [|apply Hs|destruct Hs as (_ & _ & S3 & _); eapply S3; eauto|assumption].
  assert (Hs1 : slotsSafe st obs w1) by (eapply slotsSafe_frame; eauto).
  assert (Hn1 : notified w1 = notified w) by apply Hf.
  apply bind_Return in H as (b & Hb & H).
  destruct newElement as [| |b0|n| |s|f|new|c r];
    try (injection H as <-; auto; fail).
  cbn in Hb. injection Hb as <-.
  specialize (Hnew new eq_refl).
  set (w2 := if isTagged new w1 then w1 else tagElement new w1) in *.
  assert (Hs2 : slotsSafe st obs w2).
  { unfold w2. destruct (isTagged new w1); auto. now apply slotsSafe_tag. }
  assert (Hn2 : notified w2 = notified w1).
  { unfold w2, tagElement. destruct (isTagged new w1); auto.
    now destruct (fnInfo w1 !! new). }
  destruct (negb (sameId (getElId cur w2) (getElId new w2)));
    [|injection H as <-; split; [auto|congruence]].
  apply bind_Return in H as (w4 & Hrep & H). injection H as <-.
  assert (Hcur2 : current w2 !! obsEl o = Some cur).
  { unfold w2, tagElement. destruct (isTagged new w1);
      [|destruct (fnInfo w1 !! new); cbn]; destruct Hf as (_ & -> & _); auto. }
  assert (Hs3 : slotsSafe st obs (deleteSlot st (getElId cur w2) w2)).
  { apply slotsSafe_deleteSlot; auto. intros i Hi.
    destruct Hs2 as (_ & S2 & S3 & _).
    destruct (Nat.lt_ge_cases i (length obs)) as [Hlt|]; [|assumption].
    exfalso. apply (S3 (obsEl o) cur Hh Hcur2). exact (S2 cur i Hi Hlt). }
  apply replaceWith_frame in Hrep.
  split.
  - apply slotsSafe_setCurrent; auto. eapply slotsSafe_frame; eauto.
  - cbn. destruct Hrep as (_ & _ & _ & _ & -> & _).
    unfold deleteSlot. destruct (getElId cur w2); cbn; congruence.
Qed.

Lemma slotsSafe_log (i : nat) (arg : value) (w : World) :
  slotsSafe st obs w -> slotsSafe st obs (logNotified st i arg w).
Proof. intros H. exact H. Qed.

#[local] Arguments runObserver : simpl never.

(** One round over the slots from [i] on. *)
Lemma notifyLoop_trace (arg : value) (k : nat) :
  (forall r, arg = VNode r -> ~ In r handles) ->
  forall (i : nat) (w w' : World),
    i + k <= length obs ->
    slotsSafe st obs w ->
    notifyLoop call st arg k i w = Return w' ->
    slotsSafe st obs w' /\
    notified w' = (notified w ++ roundFrom st arg i k)%list.
Proof.
  intros Harg. induction k as [|k IH]; intros i w w' Hik Hs; cbn.
  - intros [= <-]. split; [assumption|]. unfold roundFrom. cbn.
    now rewrite app_nil_r.
  - assert (Hslot : exists o, observersOf st w !! i = Some (Some o) /\ In o obs).
    { destruct Hs as (_ & _ & _ & _ & ->).
      destruct (lookup_lt_is_Some_2 obs i) as [o Ho]; [lia|].
      exists o. rewrite list_lookup_fmap, Ho. split; [reflexivity|].
      apply list_elem_of_In. eapply list_elem_of_lookup_2; eauto. }
    destruct Hslot as (o & -> & Ho). intros H.
    apply bind_Return in H as (w1 & Hrun & H).
    apply runObserver_safe in Hrun as [Hs1 Hn1]; auto.
    apply IH in H as [Hs' Hn']; [|lia|assumption].
    split; [assumption|]. rewrite Hn', Hn1. cbn.
    unfold roundFrom. cbn. now rewrite <- app_assoc.
Qed.

End Frames.

Lemma slotsSafeb_sound (st : ref) (obs : list observer) (w : World) :
  slotsSafeb st obs w = true -> slotsSafe st obs w.
Proof.
  unfold slotsSafeb, slotsSafe. rewrite !andb_true_iff, !bool_decide_eq_true.
  intros ((((H1 & H2) & H3) & H4) & H5). repeat split; auto.
  - intros r id Hr Hid. apply list_elem_of_In. exact (H2 r id Hr Hid).
  - intros h c Hh Hc Hin. apply list_elem_of_In in Hh, Hin.
    exact (H3 h c Hc Hh Hin).
  - intros h Hh. apply list_elem_of_In in Hh.
    rewrite Forall_forall in H4. auto.
Qed.

Lemma assoc_assocSet {A : Type} (k : string) (a : A) (l : list (string * A)) :
  assoc k (assocSet k a l) = Some a.
Proof.
  induction l as [|[k' a'] l IH]; cbn.
  - now rewrite String.eqb_refl.
  - destruct (String.eqb k k') eqn:E; cbn; rewrite ?String.eqb_refl, ?E; auto.
Qed.

Lemma assoc_assocRemove {A : Type} (k : string) (l : list (string * A)) :
  assoc k (assocRemove k l) = None.
Proof.
  unfold assocRemove. induction l as [|[k' a'] l IH]; [reflexivity|].
  rewrite filter_cons. case_decide as Hk; [|assumption].
  cbn in *. destruct (String.eqb_spec k k'); [congruence|auto].
Qed.

Lemma propsOf_setProps (st : ref) (l : list (string * value)) (w : World) :
  propsOf st (setProps (<[st := l]> (props w)) w) = l.
Proof. unfold propsOf. cbn. now rewrite lookup_insert_eq. Qed.

(** ** Notification *)



(** Outside the condition of the amended C1: the first observer of the
    second assignment replaces the text node numbered 1 and so deletes the
    slot 1 of the list, that of the second observer, which is never called;
    the loop then stops at the hole. *)
Lemma deleted_slot_stops_notification :
  demoStaleSlot = Throw (TypeError "observer is not a function").
Proof. vm_compute. reflexivity. Qed.

Lemma demoCall_not_handle (handles : list ref) (f : fid) (args : list value)
    (w : World) (r : ref) (w' : World) :
  (forall h, In h handles -> h < nextRef w) ->
  (forall r', In (VNode r') args -> ~ In r' handles) ->
  demoCall f args w = Return (VNode r, w') -> ~ In r handles.
Proof.
  intros Hh Hargs. destruct f as [|[|[|[|f]]]]; cbn; try discriminate.
  - intros [= Hr <-]. apply Hargs. rewrite <- Hr.
    destruct args; cbn in *; [discriminate|auto].
  - intros [= <- <-] Hin. apply Hh in Hin. lia.
Qed.

Lemma demoCall_nextRef (f : fid) (args : list value) (w : World) (v : value)
    (w' : World) :
  demoCall f args w = Return (v, w') -> nextRef w <= nextRef w'.
Proof.
  destruct f as [|[|[|[|f]]]]; cbn; intros [= <- <-]; cbn; lia.
Qed.


(** ** Replacement in the tree *)

Lemma upd_lookup_eq (r : ref) (f : node -> node) (d : gmap ref node) :
  Tree.upd r f d !! r = f <$> d !! r.
Proof.
  unfold Tree.upd. destruct (d !! r) eqn:E; cbn.
  - now rewrite lookup_insert_eq.
  - now rewrite E.
Qed.

Lemma upd_lookup_ne (r r' : ref) (f : node -> node) (d : gmap ref node) :
  r' <> r -> Tree.upd r f d !! r' = d !! r'.
Proof.
  intros H. unfold Tree.upd. destruct (d !! r); [|reflexivity].
  now rewrite lookup_insert_ne.
Qed.

Lemma upd_is_Some (r r' : ref) (f : node -> node) (d : gmap ref node) :
  is_Some (d !! r') -> is_Some (Tree.upd r f d !! r').
Proof.
  intros H. destruct (decide (r' = r)) as [->|Hne].
  - rewrite upd_lookup_eq. destruct H as [n ->]. cbn. eauto.
  - now rewrite upd_lookup_ne.
Qed.

Lemma detach_is_Some (r r' : ref) (d : gmap ref node) :
  is_Some (d !! r') -> is_Some (Tree.detach r d !! r').
Proof.
  intros H. unfold Tree.detach. destruct (Tree.parentOf r d); [|assumption].
  now do 2 apply upd_is_Some.
Qed.

Lemma isInclusiveAncestor_self (fuel : nat) (a r : ref) (d : gmap ref node) :
  Tree.isInclusiveAncestor fuel a r d = false -> a <> r.
Proof.
  destruct fuel; cbn; intros H; apply orb_false_iff in H as [H _];
    now apply Nat.eqb_neq in H.
Qed.

Lemma childrenOf_upd_parent (r p : ref) (q : option ref) (d : gmap ref node) :
  Tree.childrenOf p (Tree.upd r (withParent q) d) = Tree.childrenOf p d.
Proof.
  unfold Tree.childrenOf. destruct (decide (p = r)) as [->|Hne].
  - rewrite upd_lookup_eq. now destruct (d !! r).
  - now rewrite upd_lookup_ne.
Qed.

Lemma childrenOf_upd_children (p : ref) (g : list ref -> list ref)
    (d : gmap ref node) :
  Tree.childrenOf p (Tree.upd p (fun n => withChildren (g (childNodes n)) n) d)
  = match d !! p with
    | Some n => g (childNodes n)
    | None => []
    end.
Proof.
  unfold Tree.childrenOf. rewrite upd_lookup_eq. now destruct (d !! p).
Qed.

(** What [replaceWith] does to the tree when the two nodes differ. *)
Lemma Tree_replaceWith_spec (old new : ref) (d d' : gmap ref node) :
  old <> new ->
  Tree.replaceWith old new d = Return d' ->
  Tree.parentOf old d' = None /\
  (Tree.parentOf old d = None -> d' = d) /\
  (forall p, Tree.parentOf old d = Some p ->
     (is_Some (d !! new) -> Tree.parentOf new d' = Some p) /\
     Tree.childrenOf p d'
     = substitute old new (Tree.childrenOf p (Tree.detach new d))).
Proof.
  intros Hne. unfold Tree.replaceWith.
  destruct (Tree.parentOf old d) as [p|] eqn:Hp.
  - destruct (Nat.eqb_spec old new) as [|_]; [contradiction|].
    destruct (Tree.isInclusiveAncestor _ _ _ _) eqn:Hanc; [discriminate|].
    apply isInclusiveAncestor_self in Hanc. intros [= <-].
    split; [|split; [discriminate|]].
    + unfold Tree.parentOf. rewrite upd_lookup_ne, upd_lookup_eq by auto.
      now destruct (_ !! old).
    + intros p' [= <-]. split.
      * intros Hnew. unfold Tree.parentOf. rewrite upd_lookup_eq.
        assert (Hs : is_Some (Tree.upd old (withParent None)
                     (Tree.upd p (fun n => withChildren
                        (substitute old new (childNodes n)) n)
                        (Tree.detach new d)) !! new)).
        { do 2 apply upd_is_Some. now apply detach_is_Some. }
        destruct Hs as [n ->]. reflexivity.
      * rewrite !childrenOf_upd_parent.
        rewrite (childrenOf_upd_children p (substitute old new)).
        unfold Tree.childrenOf. now destruct (Tree.detach new d !! p).
  - intros [= <-]. split; [assumption|]. split; [reflexivity|discriminate].
Qed.

(** ** What an observer does to the tree *)

Lemma invoke_keeps
    (call : fid -> list value -> World -> outcome (value * World))
    (f : value) (args : list value) (w : World) (v : value) (w' : World) :
  invoke call f args w = Return (v, w') ->
  fnInfo w' = fnInfo w /\ lastId w' = lastId w /\ current w' = current w.
Proof.
  unfold invoke. destruct f; try discriminate.
  destruct (call f args w) as [[v0 w0]| |]; cbn; try discriminate.
  intros [= <- <-]. cbn. auto.
Qed.

Lemma renderElement_keeps
    (call : fid -> list value -> World -> outcome (value * World))
    (x : value) (w : World) (r : ref) (w' : World) :
  renderElement call x w = Return (r, w') ->
  fnInfo w' = fnInfo w /\ lastId w' = lastId w /\ current w' = current w.
Proof.
  unfold renderElement.
  destruct (negb (String.eqb (typeof x) "string") && negb (truthy x));
    [discriminate|].
  destruct x as [| |b|n| |s|f|r0|[c|] r0]; try discriminate.
  - unfold createTextNode, alloc. intros [= <- <-]. cbn. auto.
  - intros H. apply bind_Return in H as ([v w1] & Hv & H).
    apply invoke_keeps in Hv as (E1 & E2 & E3).
    destruct v as [| |b|n| |s|g|r1|[c|] r1]; try discriminate.
    + unfold createTextNode, alloc in H. injection H as <- <-. cbn. auto.
    + injection H as <- <-. auto.
  - intros [= <- <-]. auto.
Qed.

Lemma nextNode_keeps
    (call : fid -> list value -> World -> outcome (value * World))
    (o : observer) (cur : ref) (state : value) (w : World)
    (newElement : value) (w1 : World) :
  nextNode call o cur state w = Return (newElement, w1) ->
  fnInfo w1 = fnInfo w /\ lastId w1 = lastId w /\ current w1 = current w.
Proof.
  unfold nextNode. destruct (truthy (obsUpdate o)).
  - apply invoke_keeps.
  - intros H. apply bind_Return in H as ([x wa] & Hx & H).
    apply bind_Return in H as ([r wb] & Hr & H). injection H as <- <-.
    apply invoke_keeps in Hx as (E1 & E2 & E3).
    apply renderElement_keeps in Hr as (F1 & F2 & F3).
    repeat split; congruence.
Qed.

Lemma tagsUnique_tag (new : ref) (w : World) :
  tagsUnique w -> tagsUnique (tagElement new w).
Proof.
  intros [Hinj Hlt]. unfold tagElement.
  destruct (fnInfo w !! new) eqn:E; [split; assumption|].
  split; cbn.
  - intros r1 r2 id H1 H2.
    destruct (decide (r1 = new)) as [->|N1], (decide (r2 = new)) as [->|N2];
      simplify_map_eq; auto;
      try (apply Hlt in H1; lia); try (apply Hlt in H2; lia); eauto.
  - intros r id H. destruct (decide (r = new)) as [->|N1]; simplify_map_eq.
    + lia.
    + apply Hlt in H. lia.
Qed.

Lemma tagElement_dom (new : ref) (w : World) :
  dom (tagElement new w) = dom w /\ current (tagElement new w) = current w.
Proof. unfold tagElement. now destruct (fnInfo w !! new). Qed.

Lemma deleteSlot_dom (st : ref) (id : option nat) (w : World) :
  dom (deleteSlot st id w) = dom w /\
  current (deleteSlot st id w) = current w.
Proof. now destruct id. Qed.

Lemma tagsUniqueb_sound (w : World) : tagsUniqueb w = true -> tagsUnique w.
Proof.
  unfold tagsUniqueb, tagsUnique. rewrite andb_true_iff, !bool_decide_eq_true.
  intros [H1 H2]. split.
  - intros r1 r2 id E1 E2. exact (H1 r1 id E1 r2 id E2 eq_refl).
  - intros r id E. exact (H2 r id E).
Qed.

Lemma sameId_tagged (w : World) (a b : ref) :
  tagsUnique w -> isTagged b w = true -> a <> b ->
  sameId (getElId a w) (getElId b w) = false.
Proof.
  intros [Hinj _]. unfold isTagged, getElId.
  destruct (fnInfo w !! b) as [ib|] eqn:Eb; [intros _|discriminate].
  destruct (fnInfo w !! a) as [ia|] eqn:Ea; cbn; [|reflexivity].
  intros Hne. apply Nat.eqb_neq. intros ->. apply Hne. eauto.
Qed.

Lemma sameId_refl (o : option nat) : sameId o o = true.
Proof. destruct o; cbn; [apply Nat.eqb_refl|reflexivity]. Qed.



(** ** The route switch *)

Lemma Tree_removeAll_clears (fuel : nat) (sw : ref) :
  forall d d' : gmap ref node,
    length (Tree.childrenOf sw d) <= fuel ->
    Tree.removeAllChildren fuel sw d = Return d' ->
    Tree.childrenOf sw d' = [] /\ (is_Some (d !! sw) -> is_Some (d' !! sw)).
Proof.
  induction fuel as [|fuel IH]; intros d d' Hlen.
  - cbn. destruct (Tree.childrenOf sw d) eqn:E; [|cbn in Hlen; lia].
    intros [= <-]. auto.
  - cbn. destruct (Tree.childrenOf sw d) as [|c l] eqn:E.
    { intros [= <-]. auto. }
    intros H. apply bind_Return in H as (d1 & Hrem & H).
    unfold Tree.removeChild in Hrem.
    destruct (Tree.parentOf c d) as [p|] eqn:Hp; [|discriminate].
    destruct (Nat.eqb_spec p sw) as [->|]; [|discriminate].
    injection Hrem as <-.
    apply IH in H as [Hnil Hsome].
    + split; [exact Hnil|]. intros Hs. apply Hsome. now apply detach_is_Some.
    + unfold Tree.detach. rewrite Hp, childrenOf_upd_parent.
      rewrite (childrenOf_upd_children sw (without c)).
      unfold Tree.childrenOf in E. destruct (d !! sw) as [n|]; [|discriminate].
      rewrite E. unfold without. rewrite filter_cons.
      case_decide; [congruence|]. cbn in Hlen.
      pose proof (length_filter (fun x => x <> c) l). lia.
Qed.

Lemma detach_childrenOf_nil (r p : ref) (d : gmap ref node) :
  Tree.childrenOf p d = [] -> Tree.childrenOf p (Tree.detach r d) = [].
Proof.
  intros E. unfold Tree.detach. destruct (Tree.parentOf r d) as [q|]; [|exact E].
  rewrite childrenOf_upd_parent. destruct (decide (p = q)) as [->|Hne].
  - rewrite (childrenOf_upd_children q (without r)).
    unfold Tree.childrenOf in E. destruct (d !! q); [|reflexivity].
    now rewrite E.
  - unfold Tree.childrenOf. now rewrite upd_lookup_ne.
Qed.

Lemma Tree_append_sole (parent child : ref) (d d' : gmap ref node) :
  Tree.childrenOf parent d = [] ->
  is_Some (d !! parent) ->
  Tree.append parent child d = Return d' ->
  Tree.childrenOf parent d' = [child] /\
  (is_Some (d !! child) -> Tree.parentOf child d' = Some parent).
Proof.
  intros Hnil Hpar. unfold Tree.append.
  destruct (Tree.isInclusiveAncestor _ _ _ _) eqn:Hanc; [discriminate|].
  apply isInclusiveAncestor_self in Hanc. intros [= <-]. split.
  - rewrite childrenOf_upd_parent.
    rewrite (childrenOf_upd_children parent (fun l => l ++ [child])%list).
    pose proof (detach_childrenOf_nil child parent d Hnil) as E.
    destruct (detach_is_Some child parent d Hpar) as [n Hn].
    unfold Tree.childrenOf in E. rewrite Hn in *. now rewrite E.
  - intros Hc. unfold Tree.parentOf. rewrite upd_lookup_eq.
    assert (Hs : is_Some (Tree.upd parent
                   (fun n => withChildren (childNodes n ++ [child]) n)
                   (Tree.detach child d) !! child)).
    { apply upd_is_Some. now apply detach_is_Some. }
    destruct Hs as [n ->]. reflexivity.
Qed.

Section Switch.

Variable call : fid -> list value -> World -> outcome (value * World).
Variables rootPath currPath : string.
Variable sw : ref.

(** User functions leave the container of the switch alone and do not give
    addresses back. *)
Hypothesis call_keeps_switch : forall f args w v w',
  sw < nextRef w -> call f args w = Return (v, w') ->
  dom w' !! sw = dom w !! sw /\ nextRef w <= nextRef w'.

Lemma alloc_keeps_switch (n : node) (w : World) :
  sw < nextRef w ->
  dom (alloc n w).2 !! sw = dom w !! sw /\ nextRef w <= nextRef (alloc n w).2.
Proof.
  intros H. cbn. split; [|lia]. apply lookup_insert_ne. lia.
Qed.

Lemma renderElement_keeps_switch (x : value) (w : World) (r : ref)
    (w' : World) :
  sw < nextRef w ->
  renderElement call x w = Return (r, w') ->
  dom w' !! sw = dom w !! sw /\ nextRef w <= nextRef w'.
Proof.
  intros Hsw. unfold renderElement.
  destruct (negb (String.eqb (typeof x) "string") && negb (truthy x));
    [discriminate|].
  destruct x as [| |b|n| |s|f|r0|[c|] r0]; try discriminate.
  - unfold createTextNode. intros H.
    pose proof (alloc_keeps_switch (Node "#text" s [] VUndefined None []) w Hsw).
    destruct (alloc _ w). now injection H as <- <-.
  - intros H. apply bind_Return in H as ([v w1] & Hv & H).
    unfold invoke in Hv. apply bind_Return in Hv as ([v0 w0] & Hc & Hv).
    injection Hv as <- <-. apply call_keeps_switch in Hc as [Hd Hn]; auto.
    destruct v0 as [| |b|n| |s|g|r1|[c|] r1]; try discriminate.
    + unfold createTextNode in H.
      pose proof (alloc_keeps_switch (Node "#text" s [] VUndefined None [])
                    (userEffect w w0)) as Ha.
      destruct (alloc _ (userEffect w w0)). injection H as <- <-.
      cbn in Ha. destruct Ha as [Ha1 Ha2]; [lia|]. split; [congruence|lia].
    + injection H as <- <-. cbn. auto.
  - intros [= <- <-]. auto.
Qed.

#[local] Arguments renderElement : simpl never.
#[local] Arguments getAttribute : simpl never.
#[local] Arguments routeAbsolute : simpl never.
#[local] Arguments shouldDisplayRoute : simpl never.
#[local] Arguments append : simpl never.
#[local] Arguments truthy : simpl never.

(** A run of the loop that ends without a match leaves the container as
    it was, and the loop goes on with what follows. *)
Lemma switchChildren_no_match (pre : list value) :
  forall w w1 : World,
    sw < nextRef w ->
    switchChildren call rootPath currPath sw pre w = Return (VUndefined, w1) ->
    (dom w1 !! sw = dom w !! sw /\ nextRef w <= nextRef w1) /\
    forall rest,
      switchChildren call rootPath currPath sw (pre ++ rest) w
      = switchChildren call rootPath currPath sw rest w1.
Proof.
  induction pre as [|child pre IH]; intros w w1 Hsw; cbn.
  - intros [= <-]. auto.
  - intros H. apply bind_Return in H as ([r wa] & Hr & H). rewrite Hr. cbn.
    apply renderElement_keeps_switch in Hr as [Hd Hn]; auto.
    apply bind_Return in H as (path & Hp & H). rewrite Hp. cbn.
    assert (Hgo : switchChildren call rootPath currPath sw pre wa
                  = Return (VUndefined, w1) ->
                  (dom w1 !! sw = dom w !! sw /\ nextRef w <= nextRef w1) /\
                  forall rest,
                    switchChildren call rootPath currPath sw (pre ++ rest) wa
                    = switchChildren call rootPath currPath sw rest w1).
    { intros Hrec. apply IH in Hrec as [[Hd' Hn'] Happ]; [|lia].
      split; [split; [congruence|lia]|exact Happ]. }
    destruct path as [| |b|n| |route|f|r0|c r0]; auto.
    destruct (truthy (VString route)); auto.
    apply bind_Return in H as (isAbsolute & Ha & H). rewrite Ha. cbn.
    destruct (shouldDisplayRoute rootPath currPath route isAbsolute)
      as [[]|]; auto; [|discriminate].
    apply bind_Return in H as (w2 & _ & H). discriminate.
Qed.

End Switch.

Lemma childrenOf_lookup (r : ref) (w w' : World) :
  dom w' !! r = dom w !! r -> childrenOf r w' = childrenOf r w.
Proof. unfold childrenOf, Tree.childrenOf. now intros ->. Qed.


Lemma demoCall_keeps_switch (sw : ref) (f : fid) (args : list value)
    (w : World) (v : value) (w' : World) :
  sw < nextRef w -> demoCall f args w = Return (v, w') ->
  dom w' !! sw = dom w !! sw /\ nextRef w <= nextRef w'.
Proof.
  intros Hsw. destruct f as [|[|[|[|f]]]]; cbn; intros [= <- <-]; cbn; auto.
  split; [|lia]. apply lookup_insert_ne. lia.
Qed.


(** * Further properties of the module *)

(** ** Identity tags *)

(** X1: [tagElement] assigns an identity at most once.  Tagging twice is
    tagging once, a tag that exists is never changed, an object that is
    tagged already leaves the page as it is, and an untagged object gets
    the current value of the counter, which then moves on by one. *)
Theorem tagElement_assigns_once (el r : ref) (w : World) :
  tagElement el (tagElement el w) = tagElement el w /\
  (forall id, fnInfo w !! r = Some id ->
              fnInfo (tagElement el w) !! r = Some id) /\
  (is_Some (fnInfo w !! el) -> tagElement el w = w) /\
  (fnInfo w !! el = None ->
   getElId el (tagElement el w) = Some (lastId w) /\
   lastId (tagElement el w) = S (lastId w)).
Proof.
  split; [|split; [|split]].
  - pose proof (tagElement_tagged el w) as Ht. unfold isTagged in Ht.
    unfold tagElement at 1.
    destruct (fnInfo (tagElement el w) !! el); [reflexivity|discriminate].
  - intros id Hr. unfold tagElement. destruct (fnInfo w !! el) eqn:E; [exact Hr|].
    cbn. rewrite lookup_insert_ne; [exact Hr|congruence].
  - intros [id E]. unfold tagElement. now rewrite E.
  - intros E. unfold getElId, tagElement. rewrite E. cbn.
    now rewrite lookup_insert_eq.
Qed.

Lemma tagElement_assigns_once_witness :
  getElId 101 (tagElement 101 demoWorld) = Some (lastId demoWorld) /\
  lastId (tagElement 101 demoWorld) = S (lastId demoWorld).
Proof.
  apply (tagElement_assigns_once 101 101 demoWorld). reflexivity.
Defined.

(** X2: identity numbers stay unique.  On a page where no two objects share
    an identity number and the counter is above all numbers in use, this
    is still so after any sequence of calls of [tagElement]; two objects
    with the same number are then the same object. *)
Theorem tagElement_keeps_identities_unique (els : list ref) (w : World) :
  tagsUnique w ->
  tagsUnique (foldr tagElement w els) /\
  forall a b ida idb,
    getElId a (foldr tagElement w els) = Some ida ->
    getElId b (foldr tagElement w els) = Some idb ->
    (ida = idb <-> a = b).
Proof.
  intros Hu.
  assert (H : tagsUnique (foldr tagElement w els)).
  { induction els as [|el els IH]; cbn; [exact Hu|]. now apply tagsUnique_tag. }
  split; [exact H|]. intros a b ida idb Ha Hb. split.
  - intros ->. destruct H as [Hinj _]. exact (Hinj a b idb Ha Hb).
  - intros ->. unfold getElId in *. congruence.
Qed.

Lemma tagElement_keeps_identities_unique_witness :
  tagsUnique (foldr tagElement demoWorld [101; 102; 101]).
Proof.
  apply (tagElement_keeps_identities_unique [101; 102; 101] demoWorld).
  apply tagsUniqueb_sound. vm_compute. reflexivity.
Defined.

(** ** States *)

(** X3: [fnstate] on an object that is no state yet returns the object as
    a state without observers and leaves its properties and the tree alone.
    The result passes [isfnstate], unless the object has no prototype to
    take [hasOwnProperty] from, in which case [isfnstate] raises a
    [TypeError]; and a second [fnstate] on it fails, the metadata being
    defined already. *)
Theorem fnstate_initialises (v p : value) (w w' : World) :
  fnstate v w = Return (p, w') ->
  p = v /\
  props w' = props w /\ dom w' = dom w /\
  (exists st, refOf v = Some st /\
              observers w !! st = None /\ observersOf st w' = []) /\
  ((forall r, v <> VObject None r) -> isfnstate p w' = Return true) /\
  ((exists r, v = VObject None r) ->
   isfnstate p w' = Throw (TypeError "state.hasOwnProperty is not a function")) /\
  fnstate p w' = Throw (TypeError "Cannot redefine property: _fn_state_info").
Proof.
  unfold fnstate.
  destruct (String.eqb_spec (typeof v) "object") as [Ht|]; [|discriminate].
  cbn [negb]. destruct (refOf v) as [st|] eqn:Hr; [|discriminate].
  destruct (observers w !! st) eqn:Ho; [discriminate|].
  intros [= <- <-]. cbn [props dom setObservers].
  assert (Hl : observers (setObservers (<[st:=[]]> (observers w)) w) !! st
               = Some []) by (cbn; apply lookup_insert_eq).
  split; [reflexivity|]. split; [reflexivity|]. split; [reflexivity|].
  split; [exists st; repeat split; auto; unfold observersOf; now rewrite Hl|].
  split; [|split].
  - intros Hn. unfold isfnstate.
    destruct v as [| |b|n| |s|f|r|[c|] r]; try discriminate; cbn in Hr;
      injection Hr as ->; cbn [refOf];
      try (f_equal; apply bool_decide_eq_true; rewrite Hl; eauto).
    exfalso; eapply Hn; reflexivity.
  - intros [r ->]. reflexivity.
  - rewrite Ht. destruct (String.eqb_spec "object" "object"); [|contradiction].
    cbn [negb]. rewrite Hr, Hl. reflexivity.
Qed.

Lemma fnstate_initialises_witness :
  exists w', demoState = Return (demoObject, w') /\
             isfnstate demoObject w' = Return true.
Proof.
  pose (w' := match demoState with Return (_, w') => w' | _ => demoWorld end).
  exists w'.
  assert (H : demoState = Return (demoObject, w')) by (vm_compute; reflexivity).
  split; [exact H|].
  destruct (fnstate_initialises demoObject demoObject demoWorld w' H)
    as (_ & _ & _ & _ & Hs & _).
  apply Hs. discriminate.
Defined.

(** X4: [resetState] does the same whatever [reinit] is: on a state it
    empties the list of observers and changes nothing else, the properties
    included; on an object that is no state, and on a primitive, it does
    nothing at all. *)
Theorem resetState_only_clears_observers
    (call : fid -> list value -> World -> outcome (value * World))
    (state reinit : value) (w : World) :
  (forall st, refOf state = Some st -> is_Some (observers w !! st) ->
     ~ In fnStateInfo (fst <$> propsOf st w) ->
     resetState call state reinit w
     = Return (setObservers (<[st := []]> (observers w)) w)) /\
  (forall st, refOf state = Some st -> observers w !! st = None ->
     resetState call state reinit w = Return w) /\
  (refOf state = None -> state <> VUndefined -> state <> VNull ->
   resetState call state reinit w = Return w).
Proof.
  split; [|split].
  - intros st Hr [l Hl] Hk.
    assert (Hreset : reset call state reinit w
                     = Return (setObservers (<[st := []]> (observers w)) w)).
    { unfold reset. rewrite Hr. destruct (truthy reinit); [|reflexivity].
      apply assignKeys_same; auto.
      unfold observersOf. cbn. now rewrite lookup_insert_eq. }
    destruct state as [| |b|n| |s|f|r|c r]; try discriminate;
      cbn in Hr; injection Hr as ->; unfold resetState; cbn [refOf];
      now rewrite Hl.
  - intros st Hr Ho.
    destruct state as [| |b|n| |s|f|r|c r]; try discriminate;
      cbn in Hr; injection Hr as ->; unfold resetState; cbn [refOf];
      now rewrite Ho.
  - intros Hr Hu Hn.
    destruct state as [| |b|n| |s|f|r|c r]; try discriminate;
      try reflexivity; congruence.
Qed.

Lemma resetState_only_clears_observers_witness :
  exists w, demoBinding = Return (Accessor 102 (VFunction 0) demoObject, w) /\
    resetState demoCall demoObject (VBool true) w
    = resetState demoCall demoObject (VBool false) w.
Proof.
  pose (w := match demoBinding with Return (_, w) => w | _ => demoWorld end).
  exists w. split; [vm_compute; reflexivity|].
  rewrite (proj1 (resetState_only_clears_observers demoCall demoObject
                    (VBool true) w) 100 eq_refl
             ltac:(vm_compute; eauto)
             ltac:(vm_compute; intros [H|[]]; discriminate H)).
  rewrite (proj1 (resetState_only_clears_observers demoCall demoObject
                    (VBool false) w) 100 eq_refl
             ltac:(vm_compute; eauto)
             ltac:(vm_compute; intros [H|[]]; discriminate H)).
  reflexivity.
Defined.

Lemma assoc_assocSet_ne {A : Type} (k k' : string) (a : A)
    (l : list (string * A)) :
  k' <> k -> assoc k' (assocSet k a l) = assoc k' l.
Proof.
  intros Hne. induction l as [|[k0 a0] l IH]; cbn.
  - destruct (String.eqb_spec k' k); [contradiction|reflexivity].
  - destruct (String.eqb_spec k k0) as [->|Hk]; cbn.
    + destruct (String.eqb_spec k' k0); [contradiction|reflexivity].
    + destruct (String.eqb_spec k' k0); [reflexivity|exact IH].
Qed.

Lemma assoc_assocRemove_ne {A : Type} (k k' : string) (l : list (string * A)) :
  k' <> k -> assoc k' (assocRemove k l) = assoc k' l.
Proof.
  intros Hne. unfold assocRemove. induction l as [|[k0 a0] l IH]; [reflexivity|].
  rewrite filter_cons. case_decide as Hk; cbn in *.
  - destruct (String.eqb_spec k' k0); [reflexivity|exact IH].
  - destruct (String.eqb_spec k' k0) as [->|]; [|exact IH].
    exfalso. apply Hne. destruct (decide (k0 = k)); [assumption|contradiction].
Qed.

(** X5: on a state nobody observes, an assignment through the proxy stores
    the value under the key and leaves every other property as it was, a
    deletion afterwards removes the key and leaves the others as they
    were; both return [true] and notify nobody. *)
Theorem proxySet_then_proxyDelete
    (call : fid -> list value -> World -> outcome (value * World))
    (initialState : value) (st : ref) (k : string) (v : value) (w : World) :
  refOf initialState = Some st ->
  observersOf st w = [] ->
  k <> fnStateInfo ->
  exists w' w'',
    proxySet call initialState k v w = Return (VBool true, w') /\
    assoc k (propsOf st w') = Some v /\
    (forall k', k' <> k -> assoc k' (propsOf st w') = assoc k' (propsOf st w)) /\
    proxyDelete call initialState k w' = Return (VBool true, w'') /\
    assoc k (propsOf st w'') = None /\
    (forall k', k' <> k -> assoc k' (propsOf st w'') = assoc k' (propsOf st w)) /\
    notified w'' = notified w.
Proof.
  intros Hr Ho Hk. unfold proxySet, proxyDelete, notify, Reflect. rewrite Hr.
  destruct (String.eqb_spec k fnStateInfo); [contradiction|]. cbn [andb].
  cbn [mbind outcome_bind].
  change (observersOf st (setProps ?p w)) with (observersOf st w).
  rewrite Ho. cbn [length notifyLoop mbind outcome_bind mret outcome_ret].
  do 2 eexists. split; [reflexivity|].
  rewrite propsOf_setProps.
  split; [apply assoc_assocSet|]. split; [intros; now apply assoc_assocSet_ne|].
  cbn [mbind outcome_bind].
  change (observersOf st (setProps ?p (setProps ?q w))) with (observersOf st w).
  rewrite Ho. cbn [length notifyLoop mbind outcome_bind mret outcome_ret].
  split; [reflexivity|]. rewrite propsOf_setProps.
  split; [apply assoc_assocRemove|]. split; [|reflexivity].
  intros k' Hk'. rewrite assoc_assocRemove_ne by assumption.
  now apply assoc_assocSet_ne.
Qed.

Lemma proxySet_then_proxyDelete_witness :
  exists w0 w' w'',
    demoState = Return (demoObject, w0) /\
    proxySet demoCall demoObject "b" (VNumber 5) w0 = Return (VBool true, w') /\
    assoc "b" (propsOf 100 w') = Some (VNumber 5) /\
    proxyDelete demoCall demoObject "b" w' = Return (VBool true, w'') /\
    assoc "b" (propsOf 100 w'') = None.
Proof.
  pose (w0 := match demoState with Return (_, w) => w | _ => demoWorld end).
  destruct (proxySet_then_proxyDelete demoCall demoObject 100 "b" (VNumber 5)
              w0 eq_refl ltac:(vm_compute; reflexivity) ltac:(discriminate))
    as (w' & w'' & H1 & H2 & _ & H3 & H4 & _).
  exists w0, w', w''. split; [vm_compute; reflexivity|]. auto.
Defined.

(** ** Observers *)

Lemma invoke_keeps_observers
    (call : fid -> list value -> World -> outcome (value * World))
    (f : value) (args : list value) (w : World) (v : value) (w' : World) :
  invoke call f args w = Return (v, w') ->
  observers w' = observers w /\ notified w' = notified w.
Proof.
  unfold invoke. destruct f; try discriminate.
  destruct (call f args w) as [[v0 w0]| |]; cbn; try discriminate.
  intros [= <- <-]. cbn. auto.
Qed.

Lemma renderElement_keeps_observers
    (call : fid -> list value -> World -> outcome (value * World))
    (x : value) (w : World) (r : ref) (w' : World) :
  renderElement call x w = Return (r, w') ->
  observers w' = observers w /\ notified w' = notified w.
Proof.
  unfold renderElement.
  destruct (negb (String.eqb (typeof x) "string") && negb (truthy x));
    [discriminate|].
  destruct x as [| |b|n| |s|f|r0|[c|] r0]; try discriminate.
  - unfold createTextNode, alloc. intros [= <- <-]. cbn. auto.
  - intros H. apply bind_Return in H as ([v w1] & Hv & H).
    apply invoke_keeps_observers in Hv as (E1 & E2).
    destruct v as [| |b|n| |s|g|r1|[c|] r1]; try discriminate.
    + unfold createTextNode, alloc in H. injection H as <- <-. cbn. auto.
    + injection H as <- <-. auto.
  - intros [= <- <-]. auto.
Qed.

Lemma nextNode_keeps_observers
    (call : fid -> list value -> World -> outcome (value * World))
    (o : observer) (cur : ref) (state : value) (w : World)
    (newElement : value) (w1 : World) :
  nextNode call o cur state w = Return (newElement, w1) ->
  observers w1 = observers w /\ notified w1 = notified w.
Proof.
  unfold nextNode. destruct (truthy (obsUpdate o)).
  - apply invoke_keeps_observers.
  - intros H. apply bind_Return in H as ([x wa] & Hx & H).
    apply bind_Return in H as ([r wb] & Hr & H). injection H as <- <-.
    apply invoke_keeps_observers in Hx as (E1 & E2).
    apply renderElement_keeps_observers in Hr as (F1 & F2).
    split; congruence.
Qed.



Lemma notifyLoop_app
    (call : fid -> list value -> World -> outcome (value * World))
    (st : ref) (arg : value) (n m : nat) :
  forall (i : nat) (w : World),
    notifyLoop call st arg (n + m) i w
    = w' ← notifyLoop call st arg n i w; notifyLoop call st arg m (i + n) w'.
Proof.
  induction n as [|n IH]; intros i w; cbn [notifyLoop Nat.add].
  - cbn. now rewrite Nat.add_0_r.
  - destruct (observersOf st w !! i) as [[o|]|]; try reflexivity.
    destruct (runObserver call st o arg (logNotified st i arg w)) as [w1| |];
      cbn [mbind outcome_bind]; try reflexivity.
    rewrite IH. now replace (S i + n) with (i + S n) by lia.
Qed.

(** X7: a deleted slot stops every later notification.  When the observers
    before a slot run and the slot is found deleted, the assignment (and
    likewise the deletion of a property) does not return but raises a
    [TypeError]: the observers after the slot are never called. *)
Theorem deleted_slot_raises_TypeError
    (call : fid -> list value -> World -> outcome (value * World))
    (initialState : value) (st : ref) (k : string) (v : value)
    (i : nat) (w w1 w2 : World) (result : value) :
  refOf initialState = Some st ->
  Reflect set [initialState; VString k; v; initialState] w
    = Return (result, w1) ->
  i < length (observersOf st w1) ->
  notifyLoop call st initialState i 0 w1 = Return w2 ->
  observersOf st w2 !! i = Some None ->
  proxySet call initialState k v w
  = Throw (TypeError "observer is not a function").
Proof.
  intros Hr Hset Hi Hloop Hhole. unfold proxySet, notify. rewrite Hr, Hset.
  cbn [mbind outcome_bind nth].
  replace (length (observersOf st w1))
    with (i + S (length (observersOf st w1) - S i)) by lia.
  rewrite notifyLoop_app, Hloop. cbn [mbind outcome_bind notifyLoop Nat.add].
  now rewrite Hhole.
Qed.

Lemma deleted_slot_raises_TypeError_witness :
  proxySet demoCall demoObject "a" (VNumber 3) demoBeforeSecondSet
  = Throw (TypeError "observer is not a function").
Proof.
  pose (w1 := match Reflect set [demoObject; VString "a"; VNumber 3; demoObject]
                      demoBeforeSecondSet with
              | Return (_, w1) => w1
              | _ => demoWorld
              end).
  pose (w2 := match notifyLoop demoCall 100 demoObject 1 0 w1 with
              | Return w2 => w2
              | _ => demoWorld
              end).
  apply (deleted_slot_raises_TypeError demoCall demoObject 100 "a" (VNumber 3)
           1 demoBeforeSecondSet w1 w2 (VBool true) eq_refl
           ltac:(vm_compute; reflexivity)
           ltac:(vm_compute; lia)
           ltac:(vm_compute; reflexivity)
           ltac:(vm_compute; reflexivity)).
Defined.





(** ** Binding *)

Lemma isfnstate_true (st : value) (w : World) :
  isfnstate st w = Return true ->
  exists r, refOf st = Some r /\ is_Some (observers w !! r) /\
            forall w', is_Some (observers w' !! r) ->
                       isfnstate st w' = Return true.
Proof.
  unfold isfnstate.
  destruct st as [| |b|n| |s|f|r|[c|] r]; cbn; try discriminate;
    intros [= H]; apply bool_decide_eq_true in H;
    (exists r; split; [reflexivity|]; split; [exact H|]);
    intros w' Hw'; f_equal; now apply bool_decide_eq_true.
Qed.

Lemma observersOf_addObserver (st el x : ref) (element update : value)
    (w : World) :
  observersOf x (addObserver st el element update w)
  = if decide (x = st)
    then (observersOf st w ++ [Some (Observer el element update)])%list
    else observersOf x w.
Proof.
  assert (Ht : observers (tagElement el w) = observers w).
  { unfold tagElement. now destruct (fnInfo w !! el). }
  unfold addObserver, observersOf. cbn. rewrite Ht.
  destruct (decide (x = st)) as [->|Hne].
  - now rewrite lookup_insert_eq.
  - rewrite lookup_insert_ne by congruence. reflexivity.
Qed.

Lemma addObserver_keeps (st el : ref) (element update : value) (w : World) :
  dom (addObserver st el element update w) = dom w /\
  current (addObserver st el element update w) = current w /\
  props (addObserver st el element update w) = props w /\
  (forall x, x <> el ->
     fnInfo (addObserver st el element update w) !! x = fnInfo w !! x) /\
  (forall x, is_Some (observers w !! x) ->
     is_Some (observers (addObserver st el element update w) !! x)).
Proof.
  unfold addObserver. cbn.
  assert (Ht : dom (tagElement el w) = dom w /\
               current (tagElement el w) = current w /\
               props (tagElement el w) = props w /\
               observers (tagElement el w) = observers w).
  { unfold tagElement. now destruct (fnInfo w !! el). }
  destruct Ht as (-> & -> & -> & ->). repeat split.
  - intros x Hx. exact (tagElement_other el x w Hx).
  - intros x Hx. destruct (decide (x = st)) as [->|Hne].
    + rewrite lookup_insert_eq. eauto.
    + rewrite lookup_insert_ne by congruence. exact Hx.
Qed.

(** The states of a list, as the objects behind them. *)
Lemma bindStates_registers (toString : value -> string)
    (el : ref) (element update : value) (states : list value) :
  forall w : World,
    Forall (fun st => isfnstate st w = Return true) states ->
    exists w',
      bindStates toString states el element update w = Return w' /\
      (forall x,
         observersOf x w'
         = (observersOf x w
            ++ replicate (length (filter (fun y => y = x) (omap refOf states)))
                 (Some (Observer el element update)))%list) /\
      dom w' = dom w /\ current w' = current w /\ props w' = props w /\
      (forall x, x <> el -> fnInfo w' !! x = fnInfo w !! x) /\
      (states <> [] -> isTagged el w' = true).
Proof.
  induction states as [|st states IH]; intros w Hall.
  - exists w. cbn. split; [reflexivity|].
    split; [intros x; now rewrite app_nil_r|]. repeat split; auto; congruence.
  - apply Forall_cons in Hall as [Hst Hall].
    destruct (isfnstate_true st w Hst) as (r & Hr & Hsome & Hmono).
    pose (w1 := addObserver r el element update w).
    destruct (addObserver_keeps r el element update w)
      as (Kd & Kc & Kp & Kf & Ko).
    assert (Hall1 : Forall (fun s => isfnstate s w1 = Return true) states).
    { eapply Forall_impl; [exact Hall|]. intros s Hs.
      destruct (isfnstate_true s w Hs) as (rs & _ & Hs1 & Hs2).
      apply Hs2. now apply Ko. }
    destruct (IH w1 Hall1) as (w' & Hb & Hobs & Hd & Hc & Hp & Hf & Ht).
    unfold w1 in *. clear w1.
    exists w'. cbn [bindStates]. rewrite Hst. cbn [mbind outcome_bind].
    rewrite Hr. split; [exact Hb|].
    split; [|split; [congruence|split; [congruence|split; [congruence|split]]]].
    + intros x. rewrite Hobs. rewrite observersOf_addObserver.
      change (omap refOf (st :: states))
        with (match refOf st with
              | Some y => y :: omap refOf states
              | None => omap refOf states
              end).
      rewrite Hr. rewrite filter_cons.
      destruct (decide (x = r)) as [->|Hne].
      * rewrite decide_True by reflexivity. cbn [length replicate].
        now rewrite <- app_assoc.
      * rewrite decide_False by congruence. reflexivity.
    + intros x Hx. rewrite Hf by exact Hx. now apply Kf.
    + intros _. destruct states as [|s states'].
      * cbn in Hb. injection Hb as <-. unfold addObserver, isTagged. cbn.
        exact (tagElement_tagged el w).
      * apply Ht. discriminate.
Qed.

(** X10: a binding is one handle registered with every state given.  For a
    render function, or a node with a patch function, and states that all
    pass [isfnstate], [fnbind] returns an accessor for a new handle that
    tracks a new hidden [div], the marker, which [fnbind] does not tag; and
    every state has, at the end of its list, the observer of this handle
    once for each time the state is listed, the lists of other states being
    untouched. *)
Theorem fnbind_registers_one_handle (toString : value -> string)
    (state : stateArg) (element update : value) (w : World) :
  (typeof element = "function" \/
   ((exists n, element = VNode n) /\ typeof update = "function")) ->
  Forall (fun st => isfnstate st w = Return true) (statesOf state) ->
  exists a w',
    fnbind toString state element update w = Return (a, w') /\
    a = Accessor (S (nextRef w)) element (stateValue state) /\
    current w' !! accEl a = Some (nextRef w) /\
    getNode (nextRef w) w'
    = Some (Node "div" "" [("style", "display:none")] VUndefined None []) /\
    getElId (nextRef w) w' = getElId (nextRef w) w /\
    (forall x,
       observersOf x w'
       = (observersOf x w
          ++ replicate
               (length (filter (fun y => y = x) (omap refOf (statesOf state))))
               (Some (Observer (accEl a) element update)))%list).
Proof.
  intros Hel Hall.
  pose (w2 := (newHandle (nextRef w) (marker w).2).2).
  assert (Hall2 : Forall (fun st => isfnstate st w2 = Return true)
                    (statesOf state)).
  { eapply Forall_impl; [exact Hall|]. intros s Hs.
    destruct (isfnstate_true s w Hs) as (rs & _ & Hs1 & Hs2).
    apply Hs2. exact Hs1. }
  destruct (bindStates_registers toString (S (nextRef w)) element update
              (statesOf state) w2 Hall2)
    as (w' & Hb & Hobs & Hd & Hc & Hp & Hf & _).
  exists (Accessor (S (nextRef w)) element (stateValue state)), w'.
  split.
  - unfold fnbind.
    destruct Hel as [Hf'|[[n ->] Hu]].
    + destruct element as [| |b|n| |s|f|r|c r]; try discriminate.
      cbn [typeof String.eqb negb isNode mbind outcome_bind andb].
      change (bindStates toString (statesOf state) (S (nextRef w)) (VFunction f)
                update w2 ≫= (fun w3 => mret (Accessor (S (nextRef w))
                   (VFunction f) (stateValue state), w3))
              = Return (Accessor (S (nextRef w)) (VFunction f)
                          (stateValue state), w')).
      now rewrite Hb.
    + cbn [typeof isNode mbind outcome_bind mret outcome_ret negb].
      rewrite Hu.
      change (bindStates toString (statesOf state) (S (nextRef w)) (VNode n)
                update w2 ≫= (fun w3 => mret (Accessor (S (nextRef w))
                   (VNode n) (stateValue state), w3))
              = Return (Accessor (S (nextRef w)) (VNode n)
                          (stateValue state), w')).
      now rewrite Hb.
  - split; [reflexivity|]. cbn [accEl].
    split; [rewrite Hc; cbn; apply lookup_insert_eq|].
    split; [unfold getNode; rewrite Hd; cbn; apply lookup_insert_eq|].
    split; [unfold getElId; rewrite Hf by lia; reflexivity|].
    intros x. rewrite Hobs. reflexivity.
Qed.

Lemma fnbind_registers_one_handle_witness :
  exists w a w',
    demoState = Return (demoObject, w) /\
    fnbind demoToString (OneState demoObject) (VFunction 0) VUndefined w
    = Return (a, w') /\
    observersOf 100 w' = [Some (Observer (accEl a) (VFunction 0) VUndefined)].
Proof.
  pose (w := match demoState with Return (_, w) => w | _ => demoWorld end).
  destruct (fnbind_registers_one_handle demoToString (OneState demoObject)
              (VFunction 0) VUndefined w (or_introl eq_refl)
              ltac:(repeat constructor))
    as (a & w' & H & _ & _ & _ & _ & Hobs).
  exists w, a, w'. split; [vm_compute; reflexivity|]. split; [exact H|].
  rewrite Hobs. reflexivity.
Defined.

Lemma isfnstate_false (st : value) (w : World) :
  isfnstate st w = Return false ->
  forall w', (forall x, is_Some (observers w' !! x) ->
                        is_Some (observers w !! x)) ->
             isfnstate st w' = Return false.
Proof.
  unfold isfnstate.
  destruct st as [| |b|n| |s|f|r|[c|] r]; cbn; try discriminate; auto;
    intros [= H] w' Hsub; f_equal; apply bool_decide_eq_false;
    apply bool_decide_eq_false in H; auto.
Qed.

Lemma addObserver_same_states (st el x : ref) (element update : value)
    (w : World) :
  is_Some (observers w !! st) ->
  is_Some (observers (addObserver st el element update w) !! x) ->
  is_Some (observers w !! x).
Proof.
  intros Hst. unfold addObserver. cbn.
  assert (Ht : observers (tagElement el w) = observers w).
  { unfold tagElement. now destruct (fnInfo w !! el). }
  rewrite Ht. destruct (decide (x = st)) as [->|Hne]; [auto|].
  now rewrite lookup_insert_ne by congruence.
Qed.

Lemma bindStates_first_invalid (toString : value -> string)
    (el : ref) (element update : value) (st : value) (post : list value)
    (pre : list value) :
  forall w : World,
    Forall (fun s => isfnstate s w = Return true) pre ->
    isfnstate st w = Return false ->
    bindStates toString (pre ++ st :: post) el element update w
    = Throw (ThrownStack ("State: " ++ toString st ++
                          " is not initialized. Use fnstate() to initialize.")).
Proof.
  induction pre as [|s pre IH]; intros w Hall Hst.
  - cbn. now rewrite Hst.
  - apply Forall_cons in Hall as [Hs Hall].
    destruct (isfnstate_true s w Hs) as (r & Hr & Hsome & _).
    cbn. rewrite Hs. cbn. rewrite Hr. apply IH.
    + eapply Forall_impl; [exact Hall|]. intros s' Hs'.
      destruct (isfnstate_true s' w Hs') as (rs & _ & Hs1 & Hs2).
      apply Hs2. now apply addObserver_keeps.
    + eapply isfnstate_false; [exact Hst|].
      intros x. now apply addObserver_same_states.
Qed.

(** X11: what [fnbind] rejects, and how.  A value that is neither a
    function nor a node cannot be bound; a node cannot be bound without a
    patch function; and with a bindable element the first of the states
    that does not pass [isfnstate] is named in the failure.  Each is the
    stack of a fresh error. *)
Theorem fnbind_rejections (toString : value -> string)
    (state : stateArg) (element update : value) (w : World) :
  (typeof element <> "function" -> (forall n, element <> VNode n) ->
   (forall r, element <> VObject None r) ->
   fnbind toString state element update w
   = Throw (ThrownStack "You can only bind functions and Elements")) /\
  ((exists n, element = VNode n) -> typeof update <> "function" ->
   fnbind toString state element update w
   = Throw (ThrownStack
              "You must supply an update function when binding an element")) /\
  (typeof element = "function" \/
   ((exists n, element = VNode n) /\ typeof update = "function") ->
   forall pre st post,
     statesOf state = (pre ++ st :: post)%list ->
     Forall (fun s => isfnstate s w = Return true) pre ->
     isfnstate st w = Return false ->
     fnbind toString state element update w
     = Throw (ThrownStack ("State: " ++ toString st ++
                           " is not initialized. Use fnstate() to initialize."))).
Proof.
  split; [|split].
  - intros Hf Hn Ho. unfold fnbind.
    destruct (String.eqb_spec (typeof element) "function"); [contradiction|].
    cbn [negb].
    destruct element as [| |b|n0| |s|f|r|[c|] r]; try reflexivity.
    + now destruct (Hn r).
    + now destruct (Ho r).
  - intros [n ->] Hu. unfold fnbind.
    cbn [typeof isNode mbind outcome_bind mret outcome_ret negb String.eqb].
    destruct (String.eqb_spec (typeof update) "function"); [contradiction|].
    reflexivity.
  - intros Hel pre st post Hstates Hall Hst.
    pose (w2 := (newHandle (nextRef w) (marker w).2).2).
    assert (Hb : bindStates toString (statesOf state) (S (nextRef w)) element
                   update w2
                 = Throw (ThrownStack ("State: " ++ toString st ++
                     " is not initialized. Use fnstate() to initialize."))).
    { rewrite Hstates. apply bindStates_first_invalid.
      - eapply Forall_impl; [exact Hall|]. intros s Hs.
        destruct (isfnstate_true s w Hs) as (rs & _ & Hs1 & Hs2).
        apply Hs2. exact Hs1.
      - eapply isfnstate_false; [exact Hst|]. auto. }
    unfold fnbind. destruct Hel as [Hf'|[[n ->] Hu]].
    + destruct element as [| |b|n| |s|f|r|c r]; try discriminate.
      cbn [typeof String.eqb negb isNode mbind outcome_bind andb].
      change (bindStates toString (statesOf state) (S (nextRef w)) (VFunction f)
                update w2 ≫= (fun w3 => mret (Accessor (S (nextRef w))
                   (VFunction f) (stateValue state), w3))
              = Throw (ThrownStack ("State: " ++ toString st ++
                     " is not initialized. Use fnstate() to initialize."))).
      now rewrite Hb.
    + cbn [typeof isNode mbind outcome_bind mret outcome_ret negb].
      rewrite Hu.
      change (bindStates toString (statesOf state) (S (nextRef w)) (VNode n)
                update w2 ≫= (fun w3 => mret (Accessor (S (nextRef w))
                   (VNode n) (stateValue state), w3))
              = Throw (ThrownStack ("State: " ++ toString st ++
                     " is not initialized. Use fnstate() to initialize."))).
      now rewrite Hb.
Qed.

Lemma fnbind_rejections_witness :
  fnbind demoToString (OneState (VNumber 7)) (VFunction 0) VUndefined demoWorld
  = Throw (ThrownStack ("State: " ++ demoToString (VNumber 7) ++
                        " is not initialized. Use fnstate() to initialize.")).
Proof.
  apply (proj2 (proj2 (fnbind_rejections demoToString (OneState (VNumber 7))
                         (VFunction 0) VUndefined demoWorld))
           (or_introl eq_refl) [] (VNumber 7) []);
    [reflexivity|constructor|reflexivity].
Defined.

(** ** The route switch, whatever the children *)

Lemma switchChildren_at_most_one
    (call : fid -> list value -> World -> outcome (value * World))
    (rootPath currPath : string) (sw : ref) :
  (forall f args w v w',
     sw < nextRef w -> call f args w = Return (v, w') ->
     dom w' !! sw = dom w !! sw /\ nextRef w <= nextRef w') ->
  forall (children : list value) (w : World) (v : value) (w' : World),
    sw < nextRef w ->
    is_Some (dom w !! sw) ->
    childrenOf sw w = [] ->
    switchChildren call rootPath currPath sw children w = Return (v, w') ->
    (v = VUndefined /\ childrenOf sw w' = []) \/
    (v = VNode sw /\
     exists r, childrenOf sw w' = [r] /\ parentOf r w' = Some sw).
Proof.
  intros Hcall. induction children as [|child children IH];
    intros w v w' Hsw Hnode Hnil; cbn [switchChildren].
  - intros [= <- <-]. auto.
  - intros H. apply bind_Return in H as ([r wa] & Hr & H).
    destruct (renderElement_keeps_switch call sw Hcall child w r wa Hsw Hr)
      as [Hd Hn].
    assert (Hnode' : is_Some (dom wa !! sw)) by (rewrite Hd; exact Hnode).
    assert (Hnil' : childrenOf sw wa = [])
      by (rewrite (childrenOf_lookup sw w wa Hd); exact Hnil).
    assert (Hsw' : sw < nextRef wa) by lia.
    apply bind_Return in H as (path & Hp & H).
    destruct path as [| |b|n| |route|f|r0|c r0]; try (eapply IH; eauto; fail).
    destruct (truthy (VString route)); [|eapply IH; eauto].
    apply bind_Return in H as (isAbsolute & Ha & H).
    destruct (shouldDisplayRoute rootPath currPath route isAbsolute)
      as [[]|]; [|eapply IH; eauto|discriminate].
    apply bind_Return in H as (w2 & Happ & H). injection H as <- <-.
    right. split; [reflexivity|]. exists r.
    unfold append in Happ. apply bind_Return in Happ as (d & Hd2 & Happ).
    injection Happ as <-.
    apply Tree_append_sole in Hd2 as [Hsole Hparent]; auto.
    split; [exact Hsole|]. apply Hparent.
    unfold getAttribute, getNode in Hp.
    destruct (dom wa !! r); [eauto|discriminate].
Qed.

(** X12: after the render function of [routeSwitch] has returned, the
    container holds no child when the result is [undefined], and exactly
    one, a child of the switch that was rendered, when the result is the
    container; there is no third result.  The children the container had
    before are gone in either case. *)
Theorem routeSwitch_holds_at_most_one_child
    (call : fid -> list value -> World -> outcome (value * World))
    (rootPath currPath : string) (sw : ref) (children : list value)
    (w : World) (v : value) (w' : World) :
  (forall f args w v w',
     sw < nextRef w -> call f args w = Return (v, w') ->
     dom w' !! sw = dom w !! sw /\ nextRef w <= nextRef w') ->
  sw < nextRef w ->
  is_Some (getNode sw w) ->
  routeSwitchRender call rootPath currPath sw children w = Return (v, w') ->
  (v = VUndefined /\ childrenOf sw w' = []) \/
  (v = VNode sw /\
   exists r, childrenOf sw w' = [r] /\ parentOf r w' = Some sw).
Proof.
  intros Hcall Hsw Hnode. unfold routeSwitchRender. intros H.
  apply bind_Return in H as (w0 & Hrem & H).
  unfold removeAllChildren in Hrem.
  apply bind_Return in Hrem as (d & Hd & Hrem). injection Hrem as <-.
  apply Tree_removeAll_clears in Hd as [Hnil Hs]; [|reflexivity].
  apply (switchChildren_at_most_one call rootPath currPath sw Hcall children
           (setDom d w) v w'); [exact Hsw|exact (Hs Hnode)|exact Hnil|exact H].
Qed.

Lemma routeSwitch_holds_at_most_one_child_witness :
  exists v w',
    routeSwitchRender demoCall "" "/nowhere" 200
      [VNode 202; VNode 203; VNode 204] demoSwitchWorld = Return (v, w') /\
    v = VUndefined /\ childrenOf 200 w' = [].
Proof.
  pose (w' := match routeSwitchRender demoCall "" "/nowhere" 200
                      [VNode 202; VNode 203; VNode 204] demoSwitchWorld with
              | Return (_, w') => w'
              | _ => demoWorld
              end).
  assert (H : routeSwitchRender demoCall "" "/nowhere" 200
                [VNode 202; VNode 203; VNode 204] demoSwitchWorld
              = Return (VUndefined, w')) by (vm_compute; reflexivity).
  exists VUndefined, w'. split; [exact H|].
  destruct (routeSwitch_holds_at_most_one_child demoCall "" "/nowhere" 200
              [VNode 202; VNode 203; VNode 204] demoSwitchWorld VUndefined w'
              (demoCall_keeps_switch 200)
              ltac:(vm_compute; lia) ltac:(vm_compute; eauto) H)
    as [[_ Hnil]|[Hv _]]; [auto|discriminate Hv].
Defined.

(** ** Mounting *)

Lemma parentOf_upd_children (x p : ref) (g : list ref -> list ref)
    (d : gmap ref node) :
  Tree.parentOf x (Tree.upd p (fun n => withChildren (g (childNodes n)) n) d)
  = Tree.parentOf x d.
Proof.
  unfold Tree.parentOf. destruct (decide (x = p)) as [->|Hne].
  - rewrite upd_lookup_eq. now destruct (d !! p).
  - now rewrite upd_lookup_ne.
Qed.

Lemma Tree_append_detached (parent child : ref) (d d' : gmap ref node) :
  Tree.parentOf child d = None ->
  is_Some (d !! parent) ->
  Tree.append parent child d = Return d' ->
  Tree.childrenOf parent d' = (Tree.childrenOf parent d ++ [child])%list /\
  (is_Some (d !! child) -> Tree.parentOf child d' = Some parent) /\
  (forall x, x <> child -> Tree.parentOf x d' = Tree.parentOf x d) /\
  (forall x, is_Some (d !! x) -> is_Some (d' !! x)).
Proof.
  intros Hdet Hpar. unfold Tree.append.
  destruct (Tree.isInclusiveAncestor _ _ _ _) eqn:Hanc; [discriminate|].
  apply isInclusiveAncestor_self in Hanc. intros [= <-].
  unfold Tree.detach. rewrite Hdet. split; [|split; [|split]].
  - rewrite childrenOf_upd_parent.
    rewrite (childrenOf_upd_children parent (fun l => l ++ [child])%list).
    unfold Tree.childrenOf. destruct Hpar as [n ->]. reflexivity.
  - intros Hc. unfold Tree.parentOf. rewrite upd_lookup_eq.
    destruct (upd_is_Some parent child
                (fun n => withChildren (childNodes n ++ [child]) n) d Hc)
      as [n ->]. reflexivity.
  - intros x Hx. unfold Tree.parentOf at 1. rewrite upd_lookup_ne by exact Hx.
    exact (parentOf_upd_children x parent (fun l => l ++ [child])%list d).
  - intros x Hx. now do 2 apply upd_is_Some.
Qed.

Lemma renderAll_nodes
    (call : fid -> list value -> World -> outcome (value * World))
    (nodes : list ref) (w : World) :
  renderAll call (VNode <$> nodes) w = Return (nodes, w).
Proof.
  induction nodes as [|r nodes IH]; [reflexivity|].
  cbn. unfold renderElement. cbn. rewrite IH. reflexivity.
Qed.

Lemma appendAll_in_order (root : ref) (nodes : list ref) :
  forall w w' : World,
    is_Some (getNode root w) ->
    NoDup nodes ->
    Forall (fun r => parentOf r w = None /\ is_Some (getNode r w)) nodes ->
    appendAll root nodes w = Return w' ->
    childrenOf root w' = (childrenOf root w ++ nodes)%list /\
    Forall (fun r => parentOf r w' = Some root) nodes /\
    (forall x, ~ In x nodes -> parentOf x w' = parentOf x w) /\
    (forall x, is_Some (getNode x w) -> is_Some (getNode x w')).
Proof.
  induction nodes as [|r nodes IH]; intros w w' Hroot Hnd Hall; cbn.
  - intros [= <-]. rewrite app_nil_r. auto.
  - intros H. apply bind_Return in H as (w1 & Happ & H).
    apply NoDup_cons in Hnd as [Hr Hnd].
    apply Forall_cons in Hall as [[Hdet Hex] Hall].
    unfold append in Happ. apply bind_Return in Happ as (d & Hd & Happ).
    injection Happ as <-.
    apply Tree_append_detached in Hd as (Hkids & Hpar & Hoth & Hsome); auto.
    apply IH in H as (Hkids' & Hall' & Hoth' & Hsome').
    + split; [|split; [|split]].
      * rewrite Hkids'. unfold childrenOf in *. cbn. rewrite Hkids.
        now rewrite <- app_assoc.
      * constructor; [|exact Hall'].
        rewrite Hoth' by (rewrite <- list_elem_of_In; exact Hr).
        apply Hpar. exact Hex.
      * intros x Hx. rewrite Hoth' by (intros Hin; apply Hx; now right).
        apply Hoth. intros ->. apply Hx. now left.
      * intros x Hx. apply Hsome'. cbn. apply Hsome. exact Hx.
    + apply Hsome. exact Hroot.
    + exact Hnd.
    + eapply Forall_impl.
      * apply Forall_forall. intros x Hx. exact (conj Hx (proj1 (Forall_forall _ _) Hall x Hx)).
      * cbn. intros x [Hx [Hdx Hex']]. split.
        -- unfold parentOf. cbn. rewrite Hoth; [exact Hdx|].
           intros ->. apply Hr. exact Hx.
        -- apply Hsome. exact Hex'.
Qed.



(** ** Attribute objects *)

Lemma assoc_None_keys {A : Type} (k : string) (l : list (string * A)) :
  assoc k l = None <-> k ∉ (fst <$> l).
Proof.
  induction l as [|[k' a] l IH]; cbn.
  - split; [intros _; apply not_elem_of_nil|reflexivity].
  - rewrite not_elem_of_cons. cbn.
    destruct (String.eqb_spec k k') as [->|Hne].
    + split; [discriminate|]. intros [H _]. congruence.
    + rewrite IH. tauto.
Qed.

Lemma assignFrom_lookup (src : list (string * value)) (k : string)
    (keys : list string) :
  forall tgt : list (string * value),
    assoc k (foldl (fun l k' => match assoc k' src with
                                | Some v => assocSet k' v l
                                | None => l
                                end) tgt keys)
    = if decide (k ∈ keys)
      then match assoc k src with
           | Some v => Some v
           | None => assoc k tgt
           end
      else assoc k tgt.
Proof.
  induction keys as [|k' keys IH]; intros tgt; [reflexivity|].
  cbn [foldl]. rewrite IH.
  destruct (String.eqb_spec k k') as [->|Hne].
  - rewrite (decide_True (P := k' ∈ k' :: keys)) by (apply elem_of_cons; now left).
    destruct (assoc k' src) as [v|] eqn:E.
    + rewrite assoc_assocSet. now destruct (decide (k' ∈ keys)).
    + now destruct (decide (k' ∈ keys)).
  - assert (Ht : assoc k (match assoc k' src with
                          | Some v => assocSet k' v tgt
                          | None => tgt
                          end) = assoc k tgt).
    { destruct (assoc k' src); [now apply assoc_assocSet_ne|reflexivity]. }
    rewrite Ht. destruct (decide (k ∈ keys)) as [Hin|Hnin].
    + rewrite decide_True by (apply elem_of_cons; now right). reflexivity.
    + rewrite decide_False; [reflexivity|].
      rewrite elem_of_cons. tauto.
Qed.

Lemma objectAssign_lookup (target : ref) (source : value) (r : ref)
    (w : World) (k : string) :
  refOf source = Some r ->
  assoc k (propsOf target (objectAssign target source w))
  = match assoc k (propsOf r w) with
    | Some v => Some v
    | None => assoc k (propsOf target w)
    end.
Proof.
  intros Hr. unfold objectAssign. rewrite Hr, propsOf_setProps.
  rewrite assignFrom_lookup.
  destruct (decide (k ∈ fst <$> propsOf r w)) as [Hin|Hnin]; [reflexivity|].
  apply assoc_None_keys in Hnin. now rewrite Hnin.
Qed.

Lemma objectAssign_others (target x : ref) (source : value) (w : World) :
  x <> target ->
  propsOf x (objectAssign target source w) = propsOf x w.
Proof.
  intros Hx. unfold objectAssign. destruct (refOf source); [|reflexivity].
  unfold propsOf. cbn. now rewrite lookup_insert_ne by congruence.
Qed.

Lemma omap_ext_In {A B : Type} (f g : A -> option B) (l : list A) :
  (forall x, In x l -> f x = g x) -> omap f l = omap g l.
Proof.
  induction l as [|a l IH]; intros H; [reflexivity|].
  change (omap f (a :: l))
    with (match f a with Some y => y :: omap f l | None => omap f l end).
  change (omap g (a :: l))
    with (match g a with Some y => y :: omap g l | None => omap g l end).
  rewrite (H a) by (now left). rewrite IH; [reflexivity|].
  intros x Hx. apply H. now right.
Qed.

Lemma attrsOf_ext (attrs : ref) (child : value) (w w' : World) :
  (forall c r, child = VObject c r -> r <> attrs) ->
  (forall x, x <> attrs -> propsOf x w' = propsOf x w) ->
  attrsOf child w' = attrsOf child w.
Proof.
  intros Hc Hp. destruct child as [| |b|n| |s|f|r|[c|] r]; try reflexivity.
  cbn. destruct (String.eqb c "Array"); [reflexivity|].
  rewrite Hp; [reflexivity|]. eapply Hc. reflexivity.
Qed.

Lemma mergeAttrs_spec (attrs : ref) (children : list value) :
  forall w1 : World,
    (forall r, ~ In (VObject None r) children) ->
    (forall c r, In (VObject c r) children -> r <> attrs) ->
    exists w',
      mergeAttrs attrs children w1 = Return w' /\
      (forall k,
         assoc k (propsOf attrs w')
         = foldl (fun found l => match assoc k l with
                                 | Some v => Some v
                                 | None => found
                                 end)
             (assoc k (propsOf attrs w1))
             (omap (fun c => attrsOf c w1) children)) /\
      (forall x, x <> attrs -> propsOf x w' = propsOf x w1) /\
      dom w' = dom w1 /\ observers w' = observers w1 /\
      nextRef w' = nextRef w1.
Proof.
  induction children as [|child children IH]; intros w1 Hnull Hfresh.
  - exists w1. cbn. repeat split; auto.
  - assert (Hnull' : forall r, ~ In (VObject None r) children)
      by (intros r Hin; apply (Hnull r); now right).
    assert (Hfresh' : forall c r, In (VObject c r) children -> r <> attrs)
      by (intros c r Hin; apply (Hfresh c r); now right).
    assert (Hstep : exists (b : bool),
              isAttrs child = Return b /\
              let w2 := if b then objectAssign attrs child w1 else w1 in
              (forall k,
                 assoc k (propsOf attrs w2)
                 = match attrsOf child w1 with
                   | Some l => match assoc k l with
                               | Some v => Some v
                               | None => assoc k (propsOf attrs w1)
                               end
                   | None => assoc k (propsOf attrs w1)
                   end) /\
              (forall x, x <> attrs -> propsOf x w2 = propsOf x w1) /\
              dom w2 = dom w1 /\ observers w2 = observers w1 /\
              nextRef w2 = nextRef w1).
    { destruct child as [| |b|n| |s|f|r|[c|] r];
        try (exists false; cbn; repeat split; auto; fail).
      - exists true. cbn. repeat split; auto.
      - destruct (String.eqb c "Array") eqn:Ec.
        + exists false. unfold isAttrs, attrsOf. cbn. rewrite Ec. cbn.
          repeat split; auto.
        + exists true. split; [unfold isAttrs; cbn; now rewrite Ec|].
          cbv zeta. unfold attrsOf. rewrite Ec. split.
          * intros k. now apply objectAssign_lookup.
          * split; [intros x Hx; now apply objectAssign_others|].
            unfold objectAssign. cbn. auto.
      - exfalso. apply (Hnull r). now left. }
    destruct Hstep as (b & Hb & Hk & Ho & Hd & Hobs & Hn).
    destruct (IH (if b then objectAssign attrs child w1 else w1) Hnull' Hfresh')
      as (w' & Hm & Hk' & Ho' & Hd' & Hobs' & Hn').
    exists w'. cbn [mergeAttrs]. rewrite Hb. cbn [mbind outcome_bind].
    split; [exact Hm|]. split; [|split; [|split; [congruence|split; congruence]]].
    + intros k. rewrite Hk', Hk.
      assert (Hext : omap (fun c => attrsOf c
                        (if b then objectAssign attrs child w1 else w1)) children
                     = omap (fun c => attrsOf c w1) children).
      { apply omap_ext_In. intros c Hc. apply (attrsOf_ext attrs).
        - intros c0 r ->. now apply (Hfresh' c0 r).
        - exact Ho. }
      rewrite Hext.
      change (omap (fun c => attrsOf c w1) (child :: children))
        with (match attrsOf child w1 with
              | Some l => l :: omap (fun c => attrsOf c w1) children
              | None => omap (fun c => attrsOf c w1) children
              end).
      now destruct (attrsOf child w1).
    + intros x Hx. rewrite Ho' by exact Hx. now apply Ho.
Qed.

(** X14: [getAttrs] merges the attribute objects among the children into a
    new object, later ones overriding earlier ones: every key has the value
    it has in the last attribute object that has the key, and is absent when
    none has it.  Strings, functions, nodes and arrays among the children
    count for nothing, [null] counts as an empty object, and no object that
    existed is changed. *)
Theorem getAttrs_later_wins (children : list value) (w : World) :
  (forall r, ~ In (VObject None r) children) ->
  (forall c r, In (VObject c r) children -> r < nextRef w) ->
  exists w',
    getAttrs children w = Return (VObject (Some "Object") (nextRef w), w') /\
    (forall k,
       assoc k (propsOf (nextRef w) w')
       = lastOf k (omap (fun c => attrsOf c w) children)) /\
    (forall x, x < nextRef w -> propsOf x w' = propsOf x w) /\
    dom w' = dom w /\ observers w' = observers w.
Proof.
  intros Hnull Hold. unfold getAttrs, newObject.
  set (w0 := setNextRef (S (nextRef w))
               (setProps (<[nextRef w := []]> (props w)) w)).
  assert (Hfresh : forall c r, In (VObject c r) children -> r <> nextRef w).
  { intros c r Hin. apply Hold in Hin. lia. }
  assert (Hp0 : forall x, x <> nextRef w -> propsOf x w0 = propsOf x w).
  { intros x Hx. unfold propsOf, w0. cbn.
    now rewrite lookup_insert_ne by congruence. }
  destruct (mergeAttrs_spec (nextRef w) children w0 Hnull Hfresh)
    as (w' & Hm & Hk & Ho & Hd & Hobs & _).
  exists w'. rewrite Hm. split; [reflexivity|]. split; [|split].
  - intros k. rewrite Hk. unfold lastOf.
    replace (propsOf (nextRef w) w0) with (@nil (string * value)).
    + cbn [assoc]. f_equal. apply omap_ext_In. intros c Hc.
      apply (attrsOf_ext (nextRef w)); [|exact Hp0].
      intros c0 r ->. now apply (Hfresh c0 r).
    + unfold propsOf, w0. cbn. now rewrite lookup_insert_eq.
  - intros x Hx. rewrite Ho by lia. apply Hp0. lia.
  - split; [exact Hd|exact Hobs].
Qed.

Lemma getAttrs_later_wins_witness :
  exists w',
    getAttrs demoChildren demoAttrsWorld
    = Return (VObject (Some "Object") 112, w') /\
    assoc "path" (propsOf 112 w') = Some (VString "/y") /\
    assoc "id" (propsOf 112 w') = Some (VString "a") /\
    assoc "style" (propsOf 112 w') = None.
Proof.
  destruct (getAttrs_later_wins demoChildren demoAttrsWorld) as
    (w' & H & Hk & _).
  - intros r [H|[H|[H|[H|[]]]]]; discriminate H.
  - intros c r [H|[H|[H|[H|[]]]]]; try discriminate H;
      injection H as _ <-; vm_compute; lia.
  - exists w'. split; [exact H|]. rewrite !Hk. repeat split.
Defined.

(** ** The route state *)

Lemma prefix_app (p rest : string) : String.prefix p (p ++ rest) = true.
Proof.
  induction p as [|c p IH]; [apply prefix_empty|].
  change (String c p ++ rest) with (String c (p ++ rest)).
  rewrite prefix_cons. destruct (ascii_dec c c); [exact IH|congruence].
Qed.

Lemma substring_all (s : string) :
  String.substring 0 (String.length s) s = s.
Proof. induction s as [|c s IH]; cbn; [reflexivity|now rewrite IH]. Qed.

Lemma substring_app (p rest : string) :
  String.substring (String.length p)
    (String.length (p ++ rest) - String.length p) (p ++ rest) = rest.
Proof.
  induction p as [|c p IH]; cbn.
  - rewrite Nat.sub_0_r. apply substring_all.
  - exact IH.
Qed.

Lemma removeFirst_prefix (p rest : string) : removeFirst p (p ++ rest) = rest.
Proof.
  assert (H : forall s, removeFirst p s
              = if String.prefix p s
                then String.substring (String.length p)
                       (String.length s - String.length p) s
                else match s with
                     | EmptyString => EmptyString
                     | String c s' => String c (removeFirst p s')
                     end) by (now destruct s).
  rewrite H, prefix_app. apply substring_app.
Qed.

Lemma ensureSlash_starts (route : string) :
  ensureSlash route = "" \/ JsString.startsWith "/" (ensureSlash route) = true.
Proof.
  assert (H : forall s', JsString.startsWith "/" (String "/" s') = true)
    by (intros s'; apply startsWith_slash; eauto).
  unfold ensureSlash.
  destruct (JsString.startsWith "/" route) eqn:Hs.
  - apply startsWith_slash in Hs as [s' ->].
    destruct (JsString.endsWith "/" (String "/" s')); [|right; apply H].
    rewrite slice_dropLast. destruct s' as [|d s']; [now left|right].
    rewrite dropLast_cons2. apply H.
  - change ("/" ++ route) with (String "/" route).
    destruct (JsString.endsWith "/" (String "/" route)); [|right; apply H].
    rewrite slice_dropLast. destruct route as [|d s']; [now left|right].
    rewrite dropLast_cons2. apply H.
Qed.

(** X15: the route the history listener computes is what follows the root
    path in the browser's path, and [/] when nothing follows.  Hence at the
    path that [goTo( route )] builds it is the normalised route (or [/]);
    for a route written without a leading slash that is not the route
    [goTo] stored. *)
Theorem currentRouteOf_strips_root (rootPath rest route : string) :
  currentRouteOf rootPath (rootPath ++ rest)
  = (if String.eqb rest "" then "/" else rest) /\
  currentRouteOf rootPath (rootPath ++ ensureSlash route)
  = (if String.eqb (ensureSlash route) "" then "/" else ensureSlash route) /\
  (JsString.startsWith "/" route = false ->
   currentRouteOf rootPath (rootPath ++ ensureSlash route) <> route).
Proof.
  unfold currentRouteOf. rewrite !removeFirst_prefix.
  split; [reflexivity|]. split; [reflexivity|].
  intros Hs Heq.
  assert (Hr : JsString.startsWith "/" route = true); [|congruence].
  rewrite <- Heq.
  destruct (ensureSlash_starts route) as [->|H]; [reflexivity|].
  destruct (String.eqb_spec (ensureSlash route) ""); [reflexivity|exact H].
Qed.

Lemma currentRouteOf_strips_root_witness :
  currentRouteOf "/app" ("/app" ++ ensureSlash "profile") <> "profile".
Proof.
  apply (currentRouteOf_strips_root "/app" "" "profile"). reflexivity.
Defined.

Lemma Reflect_set_same (initialState : value) (st : ref) (k : string)
    (v : value) (w : World) :
  refOf initialState = Some st ->
  k <> fnStateInfo ->
  assoc k (propsOf st w) = Some v ->
  Reflect set [initialState; VString k; v; initialState] w
  = Return (VBool true, w).
Proof.
  intros Hr Hk Hv. unfold Reflect. rewrite Hr.
  destruct (String.eqb_spec k fnStateInfo); [contradiction|]. cbn [andb].
  rewrite (assocSet_same _ _ _ Hv).
  now rewrite (insert_id _ _ _ (propsOf_lookup _ _ _ _ Hv)), setProps_same.
Qed.

(** What the three assignments to [pathState.info] have in common: the
    object is updated, then every observer of the route state is called. *)
Lemma assignInfo_notifies
    (call : fid -> list value -> World -> outcome (value * World))
    (obs : list observer) (pathState : value) (ps : ref)
    (c : option string) (i : ref) (updates : list (string * value))
    (w : World) (r : value) (w' : World) :
  keepsHandles call obs ->
  routeState pathState ps c i obs w ->
  assignInfo call pathState updates w = Return (r, w') ->
  r = VObject c i /\
  exists w1,
    infoOf pathState w1 = Some (VObject c i) /\
    propsOf i w1
    = foldl (fun l '(k, v) => assocSet k v l) (propsOf i w) updates /\
    notifyLoop call ps pathState (length obs) 0 w1 = Return w' /\
    notified w' = (notified w ++ roundFrom ps pathState 0 (length obs))%list /\
    observersOf ps w' = Some <$> obs.
Proof.
  intros [Hcall Hnext] (Hr & Hps & Hinfo & Hi & Hs). unfold assignInfo.
  rewrite Hinfo.
  set (w1 := setProps (<[i := foldl (fun l '(k, v) => assocSet k v l)
                                (propsOf i w) updates]> (props w)) w).
  assert (Hps1 : propsOf ps w1 = propsOf ps w).
  { unfold propsOf, w1. cbn. now rewrite lookup_insert_ne by congruence. }
  assert (Hinfo1 : infoOf pathState w1 = Some (VObject c i)).
  { unfold infoOf in *. rewrite Hr in *. now rewrite Hps1. }
  assert (Hset : Reflect set [pathState; VString "info"; VObject c i; pathState]
                   w1 = Return (VBool true, w1)).
  { apply (Reflect_set_same pathState ps); [exact Hr|discriminate|].
    unfold infoOf in Hinfo1. now rewrite Hr in Hinfo1. }
  unfold proxySet, notify. rewrite Hr, Hset. cbn [mbind outcome_bind nth].
  intros H. apply bind_Return in H as ([r2 w2] & H2 & H).
  apply bind_Return in H2 as (w3 & Hloop & H2). injection H2 as <- <-.
  injection H as <- <-. split; [reflexivity|].
  assert (Hs1 : slotsSafe ps obs w1) by exact Hs.
  assert (Hlen : length (observersOf ps w1) = length obs).
  { destruct Hs1 as (_ & _ & _ & _ & ->). apply length_fmap. }
  rewrite Hlen in Hloop.
  assert (Harg : forall x, pathState = VNode x -> ~ In x (handlesOf obs)).
  { intros x ->. cbn in Hr. now injection Hr as ->. }
  destruct (notifyLoop_trace call obs Hcall Hnext ps pathState (length obs)
              Harg 0 w1 w3 ltac:(lia) Hs1 Hloop) as [Hs2 Hn].
  exists w1. split; [exact Hinfo1|]. split; [apply propsOf_setProps|].
  split; [exact Hloop|]. split; [exact Hn|]. apply Hs2.
Qed.


Lemma demoRouter_routeState :
  routeState demoPathState 300 (Some "Object") 301 demoRouterObservers
    demoRouterWorld.
Proof.
  split; [reflexivity|]. split; [cbn; intros [H|[]]; discriminate H|].
  split; [vm_compute; reflexivity|]. split; [discriminate|].
  apply slotsSafeb_sound. vm_compute. reflexivity.
Qed.

Lemma demoCall_keepsHandles (obs : list observer) : keepsHandles demoCall obs.
Proof.
  split; [apply demoCall_not_handle|apply demoCall_nextRef].
Qed.






(** ** Routes at their own path *)

Lemma parseAlt_S (f : nat) (s : string) :
  parseAlt (S f) s
  = match parseSeqOf f (S (String.length s)) s with
    | Some (r, String "|" rest) =>
        match parseAlt f rest with
        | Some (r', rest') => Some (RAlt r r', rest')
        | None => None
        end
    | other => other
    end.
Proof. reflexivity. Qed.

Lemma parseSeqOf_S (f n : nat) (c : ascii) (s : string) :
  parseSeqOf f (S n) (String c s)
  = if Ascii.eqb c ")" || Ascii.eqb c "|" then Some (REps, String c s)
    else
      match (if Ascii.eqb c "(" then
               match parseAlt f s with
               | Some (r, String ")" rest) => Some (r, rest)
               | _ => None
               end
             else if Ascii.eqb c "[" then parseClass s []
             else if Ascii.eqb c "$" then Some (REnd, s)
             else if Ascii.eqb c "?" || unsupportedChar c then None
             else Some (RChar c, s)) with
      | None => None
      | Some (r, rest) =>
          let '(r, rest) := parseQuant r rest in
          match parseSeqOf f n rest with
          | Some (r', rest') => Some (RSeq r r', rest')
          | None => None
          end
      end.
Proof. reflexivity. Qed.

Lemma plainChar_atom (c : ascii) :
  plainChar c = true ->
  Ascii.eqb c ")" = false /\ Ascii.eqb c "|" = false /\
  Ascii.eqb c "(" = false /\ Ascii.eqb c "[" = false /\
  Ascii.eqb c "$" = false /\ Ascii.eqb c "?" = false /\
  unsupportedChar c = false.
Proof.
  unfold plainChar. cbn [existsb].
  destruct (Ascii.eqb c "("), (Ascii.eqb c ")"), (Ascii.eqb c "|"),
    (Ascii.eqb c "["), (Ascii.eqb c "$"), (Ascii.eqb c "?"),
    (unsupportedChar c); cbn; intros H; try discriminate H; repeat split.
Qed.

Lemma parseQuant_other (r : regex) (s : string) :
  startsWithQuestion s = false -> parseQuant r s = (r, s).
Proof.
  destruct s as [|c s]; [reflexivity|]. unfold parseQuant, startsWithQuestion.
  destruct c as [[] [] [] [] [] [] [] []]; try reflexivity. discriminate.
Qed.

Lemma plain_not_question (s rest : string) :
  plain s = true -> startsWithQuestion rest = false ->
  startsWithQuestion (s ++ rest) = false.
Proof.
  destruct s as [|c s]; [auto|]. cbn [plain]. intros H _.
  apply andb_prop in H as [H _]. apply plainChar_atom in H.
  destruct H as (_ & _ & _ & _ & _ & H & _). cbn.
  destruct c as [[] [] [] [] [] [] [] []]; try reflexivity. discriminate H.
Qed.

(** The parser reads plain characters as themselves. *)
Lemma parseSeqOf_plain (f : nat) (s rest : string) :
  plain s = true -> startsWithQuestion rest = false ->
  forall n,
    parseSeqOf f n (s ++ rest)
    = match parseSeqOf f (n - String.length s) rest with
      | Some (r, rest') => Some (lits s r, rest')
      | None => None
      end.
Proof.
  intros Hs Hrest. induction s as [|c s IH]; intros n.
  - change ("" ++ rest) with rest. cbn [String.length lits].
    rewrite Nat.sub_0_r.
    now destruct (parseSeqOf f n rest) as [[]|].
  - cbn [plain] in Hs. apply andb_prop in Hs as [Hc Hs].
    destruct n as [|n]; [reflexivity|].
    change (String c s ++ rest) with (String c (s ++ rest)).
    rewrite parseSeqOf_S.
    destruct (plainChar_atom c Hc) as (-> & -> & -> & -> & -> & -> & ->).
    cbn [orb]. rewrite parseQuant_other by now apply plain_not_question.
    rewrite (IH Hs). cbn [String.length Nat.sub lits].
    now destruct (parseSeqOf f (n - String.length s) rest) as [[]|].
Qed.

Lemma length_append (a b : string) :
  String.length (a ++ b) = String.length a + String.length b.
Proof.
  induction a as [|c a IH]; [reflexivity|].
  change (String c a ++ b) with (String c (a ++ b)). cbn [String.length].
  now rewrite IH.
Qed.

Lemma append_assoc (a b c : string) : ((a ++ b) ++ c)%string = (a ++ b ++ c)%string.
Proof.
  induction a as [|x a IH]; [reflexivity|].
  change (String x a ++ b) with (String x (a ++ b)).
  change (String x (a ++ b) ++ c) with (String x ((a ++ b) ++ c)).
  now rewrite IH.
Qed.

Lemma parseSeqOf_terminator (f n : nat) :
  2 <= f -> 2 <= n ->
  parseSeqOf f n "([/?#]|$)" = Some (RSeq terminator REps, "").
Proof.
  intros Hf Hn. destruct f as [|[|f]]; [lia|lia|].
  destruct n as [|[|n]]; [lia|lia|]. reflexivity.
Qed.

(** What [new RegExp] makes of the pattern of a plain path. *)
Lemma parseSeqOf_route (f n : nat) (g1 g2 : string) :
  plain g1 = true -> plain g2 = true -> 2 <= f ->
  String.length g1 + String.length g2 + 3 <= n ->
  parseSeqOf f n (g1 ++ "/?" ++ g2 ++ "([/?#]|$)")
  = Some (lits g1 (RSeq (ROpt (RChar "/")) (lits g2 (RSeq terminator REps))),
          "").
Proof.
  intros H1 H2 Hf Hn. rewrite (parseSeqOf_plain f g1 ("/?" ++ g2 ++ "([/?#]|$)") H1 eq_refl).
  destruct (n - String.length g1) as [|m] eqn:Em; [lia|].
  change ("/?" ++ g2 ++ "([/?#]|$)")
    with (String "/" (String "?" (g2 ++ "([/?#]|$)"))).
  rewrite parseSeqOf_S. cbn [Ascii.eqb Bool.eqb orb andb unsupportedChar existsb].
  change (parseQuant (RChar "/") (String "?" (g2 ++ "([/?#]|$)")))
    with (ROpt (RChar "/"), g2 ++ "([/?#]|$)").
  cbv iota beta.
  rewrite (parseSeqOf_plain f g2 "([/?#]|$)" H2 eq_refl).
  rewrite parseSeqOf_terminator by lia. reflexivity.
Qed.

Lemma RegExp_route (g1 g2 : string) :
  plain g1 = true -> plain g2 = true ->
  RegExp (g1 ++ "/?" ++ g2 ++ "([/?#]|$)")
  = Some (lits g1 (RSeq (ROpt (RChar "/")) (lits g2 (RSeq terminator REps)))).
Proof.
  intros H1 H2. unfold RegExp. rewrite parseAlt_S.
  rewrite parseSeqOf_route; auto.
  - rewrite length_append.
    change ("/?" ++ g2 ++ "([/?#]|$)")
      with (String "/" (String "?" (g2 ++ "([/?#]|$)"))).
    cbn [String.length]. lia.
  - rewrite length_append.
    change ("/?" ++ g2 ++ "([/?#]|$)")
      with (String "/" (String "?" (g2 ++ "([/?#]|$)"))).
    cbn [String.length]. rewrite length_append. lia.
Qed.

Lemma RegExp_plain (s : string) :
  plain s = true -> RegExp s = Some (lits s REps).
Proof.
  intros H. unfold RegExp. rewrite parseAlt_S.
  pose proof (parseSeqOf_plain (String.length s) s "" H eq_refl
                (S (String.length s))) as E.
  assert (Hs : (s ++ "")%string = s).
  { clear. induction s as [|c s IH]; [reflexivity|].
    change (String c s ++ "") with (String c (s ++ "")). now rewrite IH. }
  rewrite Hs in E. rewrite E.
  replace (S (String.length s) - String.length s) with 1 by lia. reflexivity.
Qed.

Lemma rmatch_lits (s : string) (r : regex) (t : string) (k : string -> bool) :
  rmatch (lits s r) (s ++ t) k = rmatch r t k.
Proof.
  induction s as [|c s IH]; [reflexivity|].
  change (String c s ++ t) with (String c (s ++ t)). cbn [lits rmatch].
  now rewrite Ascii.eqb_refl, IH.
Qed.

Lemma rsearch_here (r : regex) (s : string) :
  rmatch r s (fun _ => true) = true -> rsearch r s = true.
Proof. intros H. destruct s; cbn [rsearch]; now rewrite H. Qed.

Lemma splitLastSlash_Some (s g1 g2 : string) :
  splitLastSlash s = Some (g1, g2) ->
  s = (g1 ++ "/" ++ g2)%string /\
  (plain s = true -> plain g1 = true /\ plain g2 = true).
Proof.
  revert g1 g2. induction s as [|c s IH]; intros g1 g2; [discriminate|].
  cbn [splitLastSlash plain].
  destruct (splitLastSlash s) as [[a b]|].
  - intros [= <- <-]. destruct (IH a b eq_refl) as [-> Hp]. split; [reflexivity|].
    intros H. apply andb_prop in H as [Hc H]. destruct (Hp H) as [Ha Hb].
    cbn [plain]. now rewrite Hc, Ha.
  - destruct (Ascii.eqb_spec c "/") as [->|]; [|discriminate].
    intros [= <- <-]. split; [reflexivity|].
    intros H. apply andb_prop in H as [_ H]. auto.
Qed.

Lemma plain_noLineTerminator (s : string) :
  plain s = true -> noLineTerminator s = true.
Proof.
  induction s as [|c s IH]; [reflexivity|]. cbn [plain noLineTerminator].
  intros H. apply andb_prop in H as [Hc H]. rewrite (IH H).
  unfold plainChar in Hc. apply andb_prop in Hc as [_ ->]. reflexivity.
Qed.

(** X19: A route is displayed at its own path: when root path and route
    take no character that a pattern reads specially, a route that is not
    absolute is displayed when the browser is at the root path followed by
    the normalised route, and when that is followed by a slash, a question
    mark or a hash sign and anything. *)
Theorem route_displayed_at_own_path (rootPath route tail : string) :
  plain (rootPath ++ ensureSlash route) = true ->
  continues tail = true ->
  shouldDisplayRoute rootPath ((rootPath ++ ensureSlash route) ++ tail) route
    false
  = Some true.
Proof.
  intros Hp Ht. unfold shouldDisplayRoute, matches, routePattern.
  destruct (splitLastSlash (rootPath ++ ensureSlash route)) as [[g1 g2]|] eqn:E.
  - destruct (splitLastSlash_Some _ _ _ E) as [Hs Hg]. rewrite Hs.
    destruct (Hg Hp) as [H1 H2]. rewrite (plain_noLineTerminator g1 H1).
    rewrite (RegExp_route g1 g2 H1 H2). f_equal. apply rsearch_here.
    rewrite !append_assoc. rewrite rmatch_lits. cbn [rmatch].
    change ("/" ++ g2 ++ tail) with (String "/" (g2 ++ tail)). cbn [Ascii.eqb Bool.eqb andb].
    rewrite rmatch_lits. cbn [orb]. cbn [rmatch terminator].
    destruct tail as [|c t]; [reflexivity|]. cbn [continues] in Ht.
    now rewrite Ht.
  - rewrite (RegExp_plain _ Hp). f_equal. apply rsearch_here.
    now rewrite rmatch_lits.
Qed.

Lemma route_displayed_at_own_path_witness :
  shouldDisplayRoute "/app" (("/app" ++ ensureSlash "docs/") ++ "/intro")
    "docs/" false
  = Some true.
Proof.
  apply (route_displayed_at_own_path "/app" "docs/" "/intro"); reflexivity.
Defined.
